(** * Series Tracker front end: asynchronous orchestration of the pages

    A shallow embedding of the React components of the front end
    (SearchBar, SearchPage, ShowDetailPage, CommentsSection,
    AIInsightPanel) and of the api client they call.

    Modelling conventions.
    - A component is a record of its [useState] variables.  A handler is a
      function on that record; it is run on the state of the last render
      (React flushes state updates between two discrete events, so the
      values a [useCallback] closure captured are the current ones).
    - An [async] handler is cut at its [await]: the part before it runs
      when the handler is called, and it leaves a continuation in the
      table [pending] of the promises not yet settled, under a fresh
      number; the network call it makes is put out together with that
      number.  The numbers are names for promises of the JavaScript
      runtime, they are not data of the program.
    - The network is the environment: it settles a pending promise by an
      event [Resolved] or [Rejected], in any order.
    - JavaScript strings are lists of UTF-16 code units; [number]
      identifiers are integers. *)

From stdpp Require Import base numbers option list gmap sets strings.

#[local] Set Warnings "-clear-no-such-hyp".

(** ** JavaScript strings *)

Module Js.

Abbreviation jsstring := (list N).

(** Code units of an ASCII literal. *)
Definition lit (s : string) : jsstring :=
  map Ascii.N_of_ascii (String.list_ascii_of_string s).

#[global] Arguments lit : simpl never.

(** ECMAScript WhiteSpace and LineTerminator code points, the ones
    [String.prototype.trim] strips. *)
Definition isWhiteSpace (c : N) : bool :=
  ((9 <=? c) && (c <=? 13))%N
  || (c =? 32)%N || (c =? 160)%N || (c =? 5760)%N
  || ((8192 <=? c) && (c <=? 8202))%N
  || (c =? 8232)%N || (c =? 8233)%N || (c =? 8239)%N
  || (c =? 8287)%N || (c =? 12288)%N || (c =? 65279)%N.

Fixpoint trimStart (s : jsstring) : jsstring :=
  match s with
  | c :: s' => if isWhiteSpace c then trimStart s' else s
  | [] => []
  end.

Definition trimEnd (s : jsstring) : jsstring :=
  rev (trimStart (rev s)).

Definition trim (s : jsstring) : jsstring := trimEnd (trimStart s).

(** Truthiness of a string: the empty string is the only falsy one. *)
Definition truthy (s : jsstring) : bool :=
  match s with [] => false | _ :: _ => true end.

End Js.

Import Js.

(** ** types/index.ts

    The descriptive fields of [Show] and [Episode] that only the markup
    reads (summary, image_url, premiered, genres, rating, status,
    official_site, airdate, runtime) are left out. *)

Record Show := mkShow { sh_id : Z; sh_name : jsstring }.

Record SearchResult := mkSearchResult { sr_score : Z; sr_show : Show }.

Record SearchResponse := mkSearchResponse {
  resp_results : list SearchResult;
  resp_query : jsstring
}.

Record Episode := mkEpisode {
  ep_id : Z;
  ep_show_id : Z;
  ep_name : jsstring;
  ep_season : Z;
  ep_number : Z
}.

Record SeasonEpisodes := mkSeasonEpisodes {
  se_season : Z;
  se_episodes : list Episode
}.

Record ShowDetail := mkShowDetail {
  sd_show : Show;
  sd_seasons : list SeasonEpisodes
}.

Record WatchedEpisodesResponse := mkWatchedEpisodesResponse {
  we_show_id : Z;
  we_episode_ids : list Z
}.

Record Comment := mkComment {
  c_id : Z;
  c_content : jsstring;
  c_show_id : Z;
  c_episode_id : option Z;
  c_created_at : jsstring
}.

Record CommentsResponse := mkCommentsResponse { cr_comments : list Comment }.

Record AIInsight := mkAIInsight {
  ai_content : jsstring;
  ai_show_id : Z;
  ai_episode_id : option Z;
  ai_generated_at : jsstring
}.

Record CreateCommentRequest := mkCreateCommentRequest {
  cc_content : jsstring;
  cc_show_id : Z;
  cc_episode_id : option Z
}.

Record MarkWatchedRequest := mkMarkWatchedRequest {
  mw_episode_id : Z;
  mw_show_id : Z
}.

Record AIInsightRequest := mkAIInsightRequest {
  ir_show_id : Z;
  ir_episode_id : option Z;
  ir_include_comments : option bool
}.

(** ** api/client.ts: the calls a page can make *)

Inductive Request :=
| searchShows (query : jsstring)
| getShowDetails (showId : Z)
| getWatchedEpisodes (showId : Z)
| markEpisodeWatched (request : MarkWatchedRequest)
| unmarkEpisodeWatched (showId episodeId : Z)
| getShowComments (showId : Z)
| getEpisodeComments (showId episodeId : Z)
| createComment (request : CreateCommentRequest)
| deleteComment (commentId : Z)
| generateInsight (request : AIInsightRequest).

(** A call put on the network, with the number of the promise that
    awaits its answer. *)
Abbreviation Calls := (list (nat * Request)).

(** ** pages/SearchPage.tsx *)

Module SearchPage.

Record State := mkState {
  results : list SearchResult;
  isLoading : bool;
  hasSearched : bool;
  error : option jsstring;
  (* the [handleSearch] calls suspended at [await searchShows(query)],
     each with the query it was called with *)
  pending : gmap nat jsstring;
  next : nat
}.

Definition init : State :=
  {| results := []; isLoading := false; hasSearched := false;
     error := None; pending := ∅; next := 0 |}.

Definition searchError : jsstring :=
  lit "Failed to search shows. Please try again.".

Definition handleSearch (query : jsstring) (s : State) : State * Calls :=
  if negb (truthy (trim query)) then
    ({| results := []; isLoading := isLoading s; hasSearched := false;
        error := error s; pending := pending s; next := next s |}, [])
  else
    ({| results := results s; isLoading := true; hasSearched := true;
        error := None;
        pending := <[next s := query]> (pending s);
        next := S (next s) |},
     [(next s, searchShows query)]).

(** [try] branch after the await, then [finally]. *)
Definition handleSearch_resolved (response : SearchResponse) (s : State)
  : State :=
  {| results := resp_results response; isLoading := false;
     hasSearched := hasSearched s; error := error s;
     pending := pending s; next := next s |}.

(** [catch] branch, then [finally]. *)
Definition handleSearch_rejected (s : State) : State :=
  {| results := []; isLoading := false;
     hasSearched := hasSearched s; error := Some searchError;
     pending := pending s; next := next s |}.

Definition settle (rid : nat) (s : State) : State :=
  {| results := results s; isLoading := isLoading s;
     hasSearched := hasSearched s; error := error s;
     pending := delete rid (pending s); next := next s |}.

Inductive Event :=
| Search (query : jsstring)
| Resolved (rid : nat) (response : SearchResponse)
| Rejected (rid : nat).

Definition step (e : Event) (s : State) : State * Calls :=
  match e with
  | Search query => handleSearch query s
  | Resolved rid response =>
      match pending s !! rid with
      | Some _ => (handleSearch_resolved response (settle rid s), [])
      | None => (s, [])
      end
  | Rejected rid =>
      match pending s !! rid with
      | Some _ => (handleSearch_rejected (settle rid s), [])
      | None => (s, [])
      end
  end.

(** A run: the state reached and all the calls made, in order. *)
Fixpoint run (tr : list Event) (sc : State * Calls) : State * Calls :=
  match tr with
  | [] => sc
  | e :: tr' =>
      let '(s1, c1) := step e (fst sc) in run tr' (s1, snd sc ++ c1)
  end.


End SearchPage.

(** ** components/SearchBar.tsx

    The hook [useDebounce] is not part of the sources at hand; the value
    it returns is taken as the input of the effect below. *)

Module SearchBar.

(** The effect that runs when [debouncedQuery] changes. *)
Definition effect {S : Type} (onSearch : jsstring → S → S * Calls)
    (debouncedQuery : jsstring) (s : S) : S * Calls :=
  if truthy (trim debouncedQuery)
  then onSearch (trim debouncedQuery) s
  else (s, []).

End SearchBar.

(** ** pages/ShowDetailPage.tsx *)

Module ShowDetailPage.

(** The three promises handed to [Promise.all] in [loadShowData]. *)
Inductive Slot := detailsSlot | watchedSlot | commentsSlot.

#[global] Instance Slot_eq_dec : EqDecision Slot.
Proof. solve_decision. Defined.

(** What [Promise.all] has collected so far.  It fulfils when the three
    values are there and rejects with the first rejection; once it has
    rejected, later answers are ignored. *)
Record PromiseAll := mkPromiseAll {
  details : option ShowDetail;
  watched : option WatchedEpisodesResponse;
  comments : option CommentsResponse;
  rejected : bool
}.

(** The handlers suspended at an [await], with the variables their
    continuation still reads. *)
Inductive Cont :=
| loadShowData_k (slot : Slot)
| handleToggleWatched_k (episodeId : Z) (isCurrentlyWatched : bool)
| handleAddShowComment_k
| handleDeleteShowComment_k (commentId : Z)
| handleGenerateShowInsight_k
| handleViewEpisodeComments_k
| handleAddEpisodeComment_k
| handleDeleteEpisodeComment_k (commentId : Z)
| handleGenerateEpisodeInsight_k.

#[global] Instance Cont_eq_dec : EqDecision Cont.
Proof. solve_decision. Defined.

Record State := mkState {
  showId : Z;                               (* prop *)
  showData : option ShowDetail;
  watchedEpisodes : gset Z;
  showComments : list Comment;
  showInsight : option AIInsight;
  selectedSeason : option Z;
  isLoading : bool;
  isLoadingComments : bool;
  isLoadingInsight : bool;
  error : option jsstring;
  selectedEpisode : option Episode;
  episodeComments : list Comment;
  episodeInsight : option AIInsight;
  isLoadingEpisodeComments : bool;
  isLoadingEpisodeInsight : bool;
  loads : PromiseAll;                       (* the Promise.all of the load *)
  pending : gmap nat Cont;                  (* promises not yet settled *)
  next : nat
}.

(** *** The [useState] setters *)

Definition setShowData (v : option ShowDetail) (s : State) : State :=
  {| showId := showId s; showData := v;
     watchedEpisodes := watchedEpisodes s;
     showComments := showComments s; showInsight := showInsight s;
     selectedSeason := selectedSeason s; isLoading := isLoading s;
     isLoadingComments := isLoadingComments s;
     isLoadingInsight := isLoadingInsight s; error := error s;
     selectedEpisode := selectedEpisode s;
     episodeComments := episodeComments s;
     episodeInsight := episodeInsight s;
     isLoadingEpisodeComments := isLoadingEpisodeComments s;
     isLoadingEpisodeInsight := isLoadingEpisodeInsight s;
     loads := loads s; pending := pending s; next := next s |}.

Definition setWatchedEpisodes (v : gset Z) (s : State) : State :=
  {| showId := showId s; showData := showData s; watchedEpisodes := v;
     showComments := showComments s; showInsight := showInsight s;
     selectedSeason := selectedSeason s; isLoading := isLoading s;
     isLoadingComments := isLoadingComments s;
     isLoadingInsight := isLoadingInsight s; error := error s;
     selectedEpisode := selectedEpisode s;
     episodeComments := episodeComments s;
     episodeInsight := episodeInsight s;
     isLoadingEpisodeComments := isLoadingEpisodeComments s;
     isLoadingEpisodeInsight := isLoadingEpisodeInsight s;
     loads := loads s; pending := pending s; next := next s |}.

Definition setShowComments (v : list Comment) (s : State) : State :=
  {| showId := showId s; showData := showData s;
     watchedEpisodes := watchedEpisodes s; showComments := v;
     showInsight := showInsight s; selectedSeason := selectedSeason s;
     isLoading := isLoading s; isLoadingComments := isLoadingComments s;
     isLoadingInsight := isLoadingInsight s; error := error s;
     selectedEpisode := selectedEpisode s;
     episodeComments := episodeComments s;
     episodeInsight := episodeInsight s;
     isLoadingEpisodeComments := isLoadingEpisodeComments s;
     isLoadingEpisodeInsight := isLoadingEpisodeInsight s;
     loads := loads s; pending := pending s; next := next s |}.

Definition setShowInsight (v : option AIInsight) (s : State) : State :=
  {| showId := showId s; showData := showData s;
     watchedEpisodes := watchedEpisodes s;
     showComments := showComments s; showInsight := v;
     selectedSeason := selectedSeason s; isLoading := isLoading s;
     isLoadingComments := isLoadingComments s;
     isLoadingInsight := isLoadingInsight s; error := error s;
     selectedEpisode := selectedEpisode s;
     episodeComments := episodeComments s;
     episodeInsight := episodeInsight s;
     isLoadingEpisodeComments := isLoadingEpisodeComments s;
     isLoadingEpisodeInsight := isLoadingEpisodeInsight s;
     loads := loads s; pending := pending s; next := next s |}.

Definition setSelectedSeason (v : option Z) (s : State) : State :=
  {| showId := showId s; showData := showData s;
     watchedEpisodes := watchedEpisodes s;
     showComments := showComments s; showInsight := showInsight s;
     selectedSeason := v; isLoading := isLoading s;
     isLoadingComments := isLoadingComments s;
     isLoadingInsight := isLoadingInsight s; error := error s;
     selectedEpisode := selectedEpisode s;
     episodeComments := episodeComments s;
     episodeInsight := episodeInsight s;
     isLoadingEpisodeComments := isLoadingEpisodeComments s;
     isLoadingEpisodeInsight := isLoadingEpisodeInsight s;
     loads := loads s; pending := pending s; next := next s |}.

Definition setIsLoading (v : bool) (s : State) : State :=
  {| showId := showId s; showData := showData s;
     watchedEpisodes := watchedEpisodes s;
     showComments := showComments s; showInsight := showInsight s;
     selectedSeason := selectedSeason s; isLoading := v;
     isLoadingComments := isLoadingComments s;
     isLoadingInsight := isLoadingInsight s; error := error s;
     selectedEpisode := selectedEpisode s;
     episodeComments := episodeComments s;
     episodeInsight := episodeInsight s;
     isLoadingEpisodeComments := isLoadingEpisodeComments s;
     isLoadingEpisodeInsight := isLoadingEpisodeInsight s;
     loads := loads s; pending := pending s; next := next s |}.

Definition setIsLoadingInsight (v : bool) (s : State) : State :=
  {| showId := showId s; showData := showData s;
     watchedEpisodes := watchedEpisodes s;
     showComments := showComments s; showInsight := showInsight s;
     selectedSeason := selectedSeason s; isLoading := isLoading s;
     isLoadingComments := isLoadingComments s; isLoadingInsight := v;
     error := error s; selectedEpisode := selectedEpisode s;
     episodeComments := episodeComments s;
     episodeInsight := episodeInsight s;
     isLoadingEpisodeComments := isLoadingEpisodeComments s;
     isLoadingEpisodeInsight := isLoadingEpisodeInsight s;
     loads := loads s; pending := pending s; next := next s |}.

Definition setError (v : option jsstring) (s : State) : State :=
  {| showId := showId s; showData := showData s;
     watchedEpisodes := watchedEpisodes s;
     showComments := showComments s; showInsight := showInsight s;
     selectedSeason := selectedSeason s; isLoading := isLoading s;
     isLoadingComments := isLoadingComments s;
     isLoadingInsight := isLoadingInsight s; error := v;
     selectedEpisode := selectedEpisode s;
     episodeComments := episodeComments s;
     episodeInsight := episodeInsight s;
     isLoadingEpisodeComments := isLoadingEpisodeComments s;
     isLoadingEpisodeInsight := isLoadingEpisodeInsight s;
     loads := loads s; pending := pending s; next := next s |}.

Definition setSelectedEpisode (v : option Episode) (s : State) : State :=
  {| showId := showId s; showData := showData s;
     watchedEpisodes := watchedEpisodes s;
     showComments := showComments s; showInsight := showInsight s;
     selectedSeason := selectedSeason s; isLoading := isLoading s;
     isLoadingComments := isLoadingComments s;
     isLoadingInsight := isLoadingInsight s; error := error s;
     selectedEpisode := v; episodeComments := episodeComments s;
     episodeInsight := episodeInsight s;
     isLoadingEpisodeComments := isLoadingEpisodeComments s;
     isLoadingEpisodeInsight := isLoadingEpisodeInsight s;
     loads := loads s; pending := pending s; next := next s |}.

Definition setEpisodeComments (v : list Comment) (s : State) : State :=
  {| showId := showId s; showData := showData s;
     watchedEpisodes := watchedEpisodes s;
     showComments := showComments s; showInsight := showInsight s;
     selectedSeason := selectedSeason s; isLoading := isLoading s;
     isLoadingComments := isLoadingComments s;
     isLoadingInsight := isLoadingInsight s; error := error s;
     selectedEpisode := selectedEpisode s; episodeComments := v;
     episodeInsight := episodeInsight s;
     isLoadingEpisodeComments := isLoadingEpisodeComments s;
     isLoadingEpisodeInsight := isLoadingEpisodeInsight s;
     loads := loads s; pending := pending s; next := next s |}.

Definition setEpisodeInsight (v : option AIInsight) (s : State) : State :=
  {| showId := showId s; showData := showData s;
     watchedEpisodes := watchedEpisodes s;
     showComments := showComments s; showInsight := showInsight s;
     selectedSeason := selectedSeason s; isLoading := isLoading s;
     isLoadingComments := isLoadingComments s;
     isLoadingInsight := isLoadingInsight s; error := error s;
     selectedEpisode := selectedEpisode s;
     episodeComments := episodeComments s; episodeInsight := v;
     isLoadingEpisodeComments := isLoadingEpisodeComments s;
     isLoadingEpisodeInsight := isLoadingEpisodeInsight s;
     loads := loads s; pending := pending s; next := next s |}.

Definition setIsLoadingEpisodeComments (v : bool) (s : State) : State :=
  {| showId := showId s; showData := showData s;
     watchedEpisodes := watchedEpisodes s;
     showComments := showComments s; showInsight := showInsight s;
     selectedSeason := selectedSeason s; isLoading := isLoading s;
     isLoadingComments := isLoadingComments s;
     isLoadingInsight := isLoadingInsight s; error := error s;
     selectedEpisode := selectedEpisode s;
     episodeComments := episodeComments s;
     episodeInsight := episodeInsight s; isLoadingEpisodeComments := v;
     isLoadingEpisodeInsight := isLoadingEpisodeInsight s;
     loads := loads s; pending := pending s; next := next s |}.

Definition setIsLoadingEpisodeInsight (v : bool) (s : State) : State :=
  {| showId := showId s; showData := showData s;
     watchedEpisodes := watchedEpisodes s;
     showComments := showComments s; showInsight := showInsight s;
     selectedSeason := selectedSeason s; isLoading := isLoading s;
     isLoadingComments := isLoadingComments s;
     isLoadingInsight := isLoadingInsight s; error := error s;
     selectedEpisode := selectedEpisode s;
     episodeComments := episodeComments s;
     episodeInsight := episodeInsight s;
     isLoadingEpisodeComments := isLoadingEpisodeComments s;
     isLoadingEpisodeInsight := v; loads := loads s;
     pending := pending s; next := next s |}.

Definition setLoads (v : PromiseAll) (s : State) : State :=
  {| showId := showId s; showData := showData s;
     watchedEpisodes := watchedEpisodes s;
     showComments := showComments s; showInsight := showInsight s;
     selectedSeason := selectedSeason s; isLoading := isLoading s;
     isLoadingComments := isLoadingComments s;
     isLoadingInsight := isLoadingInsight s; error := error s;
     selectedEpisode := selectedEpisode s;
     episodeComments := episodeComments s;
     episodeInsight := episodeInsight s;
     isLoadingEpisodeComments := isLoadingEpisodeComments s;
     isLoadingEpisodeInsight := isLoadingEpisodeInsight s; loads := v;
     pending := pending s; next := next s |}.

(** [await call]: put the call on the network and suspend with [k]. *)
Definition await (call : Request) (k : Cont) (s : State) : State * Calls :=
  ({| showId := showId s; showData := showData s;
      watchedEpisodes := watchedEpisodes s;
      showComments := showComments s; showInsight := showInsight s;
      selectedSeason := selectedSeason s; isLoading := isLoading s;
      isLoadingComments := isLoadingComments s;
      isLoadingInsight := isLoadingInsight s; error := error s;
      selectedEpisode := selectedEpisode s;
      episodeComments := episodeComments s;
      episodeInsight := episodeInsight s;
      isLoadingEpisodeComments := isLoadingEpisodeComments s;
      isLoadingEpisodeInsight := isLoadingEpisodeInsight s;
      loads := loads s; pending := <[next s := k]> (pending s);
      next := S (next s) |},
   [(next s, call)]).

(** A promise that has settled leaves the table. *)
Definition settle (rid : nat) (s : State) : State :=
  {| showId := showId s; showData := showData s;
     watchedEpisodes := watchedEpisodes s;
     showComments := showComments s; showInsight := showInsight s;
     selectedSeason := selectedSeason s; isLoading := isLoading s;
     isLoadingComments := isLoadingComments s;
     isLoadingInsight := isLoadingInsight s; error := error s;
     selectedEpisode := selectedEpisode s;
     episodeComments := episodeComments s;
     episodeInsight := episodeInsight s;
     isLoadingEpisodeComments := isLoadingEpisodeComments s;
     isLoadingEpisodeInsight := isLoadingEpisodeInsight s;
     loads := loads s; pending := delete rid (pending s);
     next := next s |}.

(** Run [f], then [g] on the state [f] leaves, collecting the calls. *)
Definition andThen (f g : State → State * Calls) (s : State)
  : State * Calls :=
  let '(s1, c1) := f s in
  let '(s2, c2) := g s1 in (s2, c1 ++ c2).

Definition quiet (f : State → State) (s : State) : State * Calls :=
  (f s, []).

(** *** Loading the show: the [useEffect] on [showId] *)

Definition loadError : jsstring :=
  lit "Failed to load show details. Please try again.".

Definition loadShowData : State → State * Calls :=
  andThen (quiet (fun s => setError None (setIsLoading true s)))
    (fun s =>
       andThen (await (getShowDetails (showId s)) (loadShowData_k detailsSlot))
         (andThen
            (await (getWatchedEpisodes (showId s)) (loadShowData_k watchedSlot))
            (await (getShowComments (showId s)) (loadShowData_k commentsSlot)))
         s).

(** The [try] block after [Promise.all] has fulfilled, then [finally]. *)
Definition loadShowData_resolved (d : ShowDetail)
    (w : WatchedEpisodesResponse) (c : CommentsResponse) (s : State)
  : State :=
  let s1 := setShowData (Some d) s in
  let s2 := setWatchedEpisodes (list_to_set (we_episode_ids w)) s1 in
  let s3 := setShowComments (cr_comments c) s2 in
  let s4 := match sd_seasons d with
            | first :: _ => setSelectedSeason (Some (se_season first)) s3
            | [] => s3
            end in
  setIsLoading false s4.

(** The [catch] block, then [finally]. *)
Definition loadShowData_rejected (s : State) : State :=
  setIsLoading false (setError (Some loadError) s).

Definition store (slot : Slot) (d : option ShowDetail)
    (w : option WatchedEpisodesResponse) (c : option CommentsResponse)
    (p : PromiseAll) : PromiseAll :=
  match slot with
  | detailsSlot =>
      {| details := d; watched := watched p; comments := comments p;
         rejected := rejected p |}
  | watchedSlot =>
      {| details := details p; watched := w; comments := comments p;
         rejected := rejected p |}
  | commentsSlot =>
      {| details := details p; watched := watched p; comments := c;
         rejected := rejected p |}
  end.

(** One of the three promises fulfils. *)
Definition all_resolved (p : PromiseAll) (s : State) : State :=
  let s1 := setLoads p s in
  if rejected p then s1
  else match details p, watched p, comments p with
       | Some d, Some w, Some c => loadShowData_resolved d w c s1
       | _, _, _ => s1
       end.

(** One of the three promises rejects. *)
Definition all_rejected (s : State) : State :=
  if rejected (loads s) then s
  else
    let p := loads s in
    loadShowData_rejected
      (setLoads {| details := details p; watched := watched p;
                   comments := comments p; rejected := true |} s).

(** The component when it mounts: the initial values of the [useState]
    calls, then the effect. *)
Definition initial (id : Z) : State :=
  {| showId := id; showData := None; watchedEpisodes := ∅;
     showComments := []; showInsight := None; selectedSeason := None;
     isLoading := true; isLoadingComments := false;
     isLoadingInsight := false; error := None;
     selectedEpisode := None; episodeComments := [];
     episodeInsight := None; isLoadingEpisodeComments := false;
     isLoadingEpisodeInsight := false;
     loads := {| details := None; watched := None; comments := None;
                 rejected := false |};
     pending := ∅; next := 0 |}.

Definition mount (id : Z) : State * Calls := loadShowData (initial id).

(** *** Watched episodes *)

Definition handleToggleWatched (episodeId : Z) (s : State)
  : State * Calls :=
  let isCurrentlyWatched := bool_decide (episodeId ∈ watchedEpisodes s) in
  (* optimistic update *)
  let s1 :=
    setWatchedEpisodes
      (if isCurrentlyWatched
       then watchedEpisodes s ∖ {[episodeId]}
       else {[episodeId]} ∪ watchedEpisodes s) s in
  await
    (if isCurrentlyWatched
     then unmarkEpisodeWatched (showId s) episodeId
     else markEpisodeWatched
            {| mw_episode_id := episodeId; mw_show_id := showId s |})
    (handleToggleWatched_k episodeId isCurrentlyWatched) s1.

(** Nothing follows the await when the request succeeds. *)
Definition handleToggleWatched_resolved (s : State) : State := s.

(** Revert on error. *)
Definition handleToggleWatched_rejected (episodeId : Z)
    (isCurrentlyWatched : bool) (s : State) : State :=
  setWatchedEpisodes
    (if isCurrentlyWatched
     then {[episodeId]} ∪ watchedEpisodes s
     else watchedEpisodes s ∖ {[episodeId]}) s.

(** *** Comments of the show *)

Definition handleAddShowComment (content : jsstring) (s : State)
  : State * Calls :=
  await (createComment {| cc_content := content; cc_show_id := showId s;
                          cc_episode_id := None |})
    handleAddShowComment_k s.

Definition handleAddShowComment_resolved (comment : Comment) (s : State)
  : State :=
  setShowComments (comment :: showComments s) s.

Definition handleDeleteShowComment (commentId : Z) (s : State)
  : State * Calls :=
  await (deleteComment commentId) (handleDeleteShowComment_k commentId) s.

Definition handleDeleteShowComment_resolved (commentId : Z) (s : State)
  : State :=
  setShowComments
    (filter (λ c, c_id c ≠ commentId) (showComments s)) s.

(** *** Insight of the show *)

Definition handleGenerateShowInsight (s : State) : State * Calls :=
  await (generateInsight {| ir_show_id := showId s; ir_episode_id := None;
                            ir_include_comments := Some true |})
    handleGenerateShowInsight_k (setIsLoadingInsight true s).

Definition handleGenerateShowInsight_resolved (insight : AIInsight)
    (s : State) : State :=
  setIsLoadingInsight false (setShowInsight (Some insight) s).

Definition handleGenerateShowInsight_rejected (s : State) : State :=
  setIsLoadingInsight false s.

(** *** The episode modal *)

Definition handleViewEpisodeComments (episode : Episode) (s : State)
  : State * Calls :=
  let s1 := setSelectedEpisode (Some episode) s in
  let s2 := setIsLoadingEpisodeComments true s1 in
  let s3 := setEpisodeInsight None s2 in
  await (getEpisodeComments (showId s) (ep_id episode))
    handleViewEpisodeComments_k s3.

Definition handleViewEpisodeComments_resolved (cs : CommentsResponse)
    (s : State) : State :=
  setIsLoadingEpisodeComments false (setEpisodeComments (cr_comments cs) s).

Definition handleViewEpisodeComments_rejected (s : State) : State :=
  setIsLoadingEpisodeComments false (setEpisodeComments [] s).

Definition handleAddEpisodeComment (content : jsstring) (s : State)
  : State * Calls :=
  match selectedEpisode s with
  | None => (s, [])
  | Some episode =>
      await (createComment {| cc_content := content;
                              cc_show_id := showId s;
                              cc_episode_id := Some (ep_id episode) |})
        handleAddEpisodeComment_k s
  end.

Definition handleAddEpisodeComment_resolved (comment : Comment)
    (s : State) : State :=
  setEpisodeComments (comment :: episodeComments s) s.

Definition handleDeleteEpisodeComment (commentId : Z) (s : State)
  : State * Calls :=
  await (deleteComment commentId) (handleDeleteEpisodeComment_k commentId) s.

Definition handleDeleteEpisodeComment_resolved (commentId : Z)
    (s : State) : State :=
  setEpisodeComments
    (filter (λ c, c_id c ≠ commentId) (episodeComments s)) s.

Definition handleGenerateEpisodeInsight (s : State) : State * Calls :=
  match selectedEpisode s with
  | None => (s, [])
  | Some episode =>
      await (generateInsight {| ir_show_id := showId s;
                                ir_episode_id := Some (ep_id episode);
                                ir_include_comments := Some true |})
        handleGenerateEpisodeInsight_k (setIsLoadingEpisodeInsight true s)
  end.

Definition handleGenerateEpisodeInsight_resolved (insight : AIInsight)
    (s : State) : State :=
  setIsLoadingEpisodeInsight false (setEpisodeInsight (Some insight) s).

Definition handleGenerateEpisodeInsight_rejected (s : State) : State :=
  setIsLoadingEpisodeInsight false s.

Definition handleCloseEpisodeModal (s : State) : State :=
  setEpisodeInsight None (setEpisodeComments [] (setSelectedEpisode None s)).

(** *** Events *)

Inductive Handler :=
| ToggleWatched (episodeId : Z)
| AddShowComment (content : jsstring)
| DeleteShowComment (commentId : Z)
| GenerateShowInsight
| ViewEpisodeComments (episode : Episode)
| AddEpisodeComment (content : jsstring)
| DeleteEpisodeComment (commentId : Z)
| GenerateEpisodeInsight
| CloseEpisodeModal
| SelectSeason (season : Z).

Definition call (h : Handler) : State → State * Calls :=
  match h with
  | ToggleWatched episodeId => handleToggleWatched episodeId
  | AddShowComment content => handleAddShowComment content
  | DeleteShowComment commentId => handleDeleteShowComment commentId
  | GenerateShowInsight => handleGenerateShowInsight
  | ViewEpisodeComments episode => handleViewEpisodeComments episode
  | AddEpisodeComment content => handleAddEpisodeComment content
  | DeleteEpisodeComment commentId => handleDeleteEpisodeComment commentId
  | GenerateEpisodeInsight => handleGenerateEpisodeInsight
  | CloseEpisodeModal => quiet handleCloseEpisodeModal
  | SelectSeason season => quiet (setSelectedSeason (Some season))
  end.

(** The value a promise fulfils with. *)
Inductive Payload :=
| ofShowDetail (d : ShowDetail)
| ofWatchedEpisodes (w : WatchedEpisodesResponse)
| ofComments (cs : CommentsResponse)
| ofComment (c : Comment)
| ofInsight (i : AIInsight)
| ofVoid.

(** The continuation [k] resumed with the value [v]; [None] when [v] is
    not a value of the call [k] awaits.  The continuations of toggle and
    delete do not read the value. *)
Definition resume (k : Cont) (v : Payload) (s : State) : option State :=
  match k, v with
  | loadShowData_k detailsSlot, ofShowDetail d =>
      Some (all_resolved (store detailsSlot (Some d) None None (loads s)) s)
  | loadShowData_k watchedSlot, ofWatchedEpisodes w =>
      Some (all_resolved (store watchedSlot None (Some w) None (loads s)) s)
  | loadShowData_k commentsSlot, ofComments c =>
      Some (all_resolved (store commentsSlot None None (Some c) (loads s)) s)
  | handleToggleWatched_k _ _, _ => Some (handleToggleWatched_resolved s)
  | handleAddShowComment_k, ofComment c =>
      Some (handleAddShowComment_resolved c s)
  | handleDeleteShowComment_k commentId, _ =>
      Some (handleDeleteShowComment_resolved commentId s)
  | handleGenerateShowInsight_k, ofInsight i =>
      Some (handleGenerateShowInsight_resolved i s)
  | handleViewEpisodeComments_k, ofComments cs =>
      Some (handleViewEpisodeComments_resolved cs s)
  | handleAddEpisodeComment_k, ofComment c =>
      Some (handleAddEpisodeComment_resolved c s)
  | handleDeleteEpisodeComment_k commentId, _ =>
      Some (handleDeleteEpisodeComment_resolved commentId s)
  | handleGenerateEpisodeInsight_k, ofInsight i =>
      Some (handleGenerateEpisodeInsight_resolved i s)
  | _, _ => None
  end.

(** The continuation [k] resumed with an exception. *)
Definition throw (k : Cont) (s : State) : State :=
  match k with
  | loadShowData_k _ => all_rejected s
  | handleToggleWatched_k episodeId isCurrentlyWatched =>
      handleToggleWatched_rejected episodeId isCurrentlyWatched s
  | handleGenerateShowInsight_k => handleGenerateShowInsight_rejected s
  | handleViewEpisodeComments_k => handleViewEpisodeComments_rejected s
  | handleGenerateEpisodeInsight_k =>
      handleGenerateEpisodeInsight_rejected s
  (* add and delete have no handler: the exception goes to the caller *)
  | handleAddShowComment_k | handleDeleteShowComment_k _
  | handleAddEpisodeComment_k | handleDeleteEpisodeComment_k _ => s
  end.

Inductive Event :=
| Call (h : Handler)
| Resolved (rid : nat) (v : Payload)
| Rejected (rid : nat).

Definition step (e : Event) (s : State) : State * Calls :=
  match e with
  | Call h => call h s
  | Resolved rid v =>
      match pending s !! rid with
      | Some k =>
          match resume k v (settle rid s) with
          | Some s' => (s', [])
          | None => (s, [])
          end
      | None => (s, [])
      end
  | Rejected rid =>
      match pending s !! rid with
      | Some k => (throw k (settle rid s), [])
      | None => (s, [])
      end
  end.

(** A run: the state reached and all the calls made, in order. *)
Fixpoint run (tr : list Event) (sc : State * Calls) : State * Calls :=
  match tr with
  | [] => sc
  | e :: tr' =>
      let '(s1, c1) := step e (fst sc) in run tr' (s1, snd sc ++ c1)
  end.

(** *** What the component renders *)

Record ModalView := mkModalView {
  mv_episode : Episode;
  mv_insight : option AIInsight;
  mv_isLoadingInsight : bool;
  mv_comments : list Comment;
  mv_isLoadingComments : bool
}.

Record DetailView := mkDetailView {
  dv_show : Show;
  dv_seasons : list SeasonEpisodes;          (* the season tabs *)
  dv_selectedSeason : option Z;
  dv_episodes : list (Episode * bool);       (* episode cards, isWatched *)
  dv_insight : option AIInsight;
  dv_isLoadingInsight : bool;
  dv_comments : list Comment;
  dv_modal : option ModalView
}.

Inductive View :=
| Spinner
| ErrorView (message : jsstring)
| Detail (v : DetailView).

Definition currentSeason (seasons : list SeasonEpisodes)
    (selected : option Z) : option SeasonEpisodes :=
  find (λ s, bool_decide (Some (se_season s) = selected)) seasons.

Definition episodeList (s : State) (seasons : list SeasonEpisodes)
  : list (Episode * bool) :=
  match currentSeason seasons (selectedSeason s) with
  | Some cur =>
      map (λ episode,
             (episode, bool_decide (ep_id episode ∈ watchedEpisodes s)))
        (se_episodes cur)
  | None => []
  end.

Definition modal (s : State) : option ModalView :=
  match selectedEpisode s with
  | Some episode =>
      Some {| mv_episode := episode; mv_insight := episodeInsight s;
              mv_isLoadingInsight := isLoadingEpisodeInsight s;
              mv_comments := episodeComments s;
              mv_isLoadingComments := isLoadingEpisodeComments s |}
  | None => None
  end.

Definition detailView (s : State) (d : ShowDetail) : DetailView :=
  {| dv_show := sd_show d; dv_seasons := sd_seasons d;
     dv_selectedSeason := selectedSeason s;
     dv_episodes := episodeList s (sd_seasons d);
     dv_insight := showInsight s;
     dv_isLoadingInsight := isLoadingInsight s;
     dv_comments := showComments s; dv_modal := modal s |}.

(** [error || 'Show not found'] *)
Definition errorOr (e : option jsstring) (other : jsstring) : jsstring :=
  match e with
  | Some message => if truthy message then message else other
  | None => other
  end.

Definition isTruthy (e : option jsstring) : bool :=
  match e with Some message => truthy message | None => false end.

(** The two guards in front of the markup of the page. *)
Definition render (s : State) : View :=
  if isLoading s then Spinner
  else
    match showData s with
    | Some d =>
        if isTruthy (error s)
        then ErrorView (errorOr (error s) (lit "Show not found"))
        else Detail (detailView s d)
    | None => ErrorView (errorOr (error s) (lit "Show not found"))
    end.

End ShowDetailPage.

(** ** components/CommentsSection.tsx *)

Module CommentsSection.

Record State := mkState {
  newComment : jsstring;
  isSubmitting : bool
}.

Definition initial : State := {| newComment := []; isSubmitting := false |}.

(** The [maxLength] attribute of the textarea. *)
Definition maxLength : nat := 2000.

(** [onChange] of the textarea. *)
Definition onChange (value : jsstring) (c : State) : State :=
  {| newComment := value; isSubmitting := isSubmitting c |}.

Section WithParent.

(** The state of the parent and the [onAddComment] it passes down. *)
Context {P : Type} (onAddComment : jsstring → P → P * Calls).

Definition handleSubmit (cp : State * P) : (State * P) * Calls :=
  let c := fst cp in
  if negb (truthy (trim (newComment c))) || isSubmitting c then (cp, [])
  else
    let '(p', calls) := onAddComment (trim (newComment c)) (snd cp) in
    (({| newComment := newComment c; isSubmitting := true |}, p'), calls).

End WithParent.

(** After [await onAddComment(...)] has returned, then [finally]. *)
Definition handleSubmit_resolved (c : State) : State :=
  {| newComment := []; isSubmitting := false |}.

(** [finally] alone, when [onAddComment] threw. *)
Definition handleSubmit_rejected (c : State) : State :=
  {| newComment := newComment c; isSubmitting := false |}.

(** The submit button: [disabled={!newComment.trim() || isSubmitting}]. *)
Definition submitDisabled (c : State) : bool :=
  negb (truthy (trim (newComment c))) || isSubmitting c.

End CommentsSection.

(** ** components/AIInsightPanel.tsx *)

Module AIInsightPanel.

(** What the panel shows under its header. *)
Inductive Content :=
| Initial (disabled : bool)        (* invitation, button Generate Insight *)
| Skeleton                         (* loading *)
| Insight (insight : AIInsight) (disabled : bool) (* text, button Regenerate *)
| Empty.

Definition render (hasGenerated : bool) (insight : option AIInsight)
    (isLoading : bool) : Content :=
  if negb hasGenerated && negb (bool_decide (is_Some insight))
  then Initial isLoading
  else if isLoading then Skeleton
  else match insight with
       | Some i => Insight i isLoading
       | None => Empty
       end.

(** Is there a button, and can it be clicked? *)
Definition clickable (c : Content) : bool :=
  match c with
  | Initial disabled | Insight _ disabled => negb disabled
  | Skeleton | Empty => false
  end.

Section WithParent.

Context {P : Type} (onGenerateInsight : P → P * Calls).

Definition handleGenerate (hp : bool * P) : (bool * P) * Calls :=
  (* setHasGenerated(true); await onGenerateInsight() *)
  let r := onGenerateInsight (snd hp) in ((true, fst r), snd r).

End WithParent.

End AIInsightPanel.

(** ** The detail page with its two insight panels

    The page hands [handleGenerateShowInsight] and
    [handleGenerateEpisodeInsight] to its panels and calls them nowhere
    else: a generation starts with a click on the button of a panel.  The
    panel of the episode lives inside the modal; it is unmounted when the
    modal closes and starts again with [hasGenerated = false].  [Modal] is
    not part of the sources at hand; it is taken to show its children
    while [isOpen]. *)

Module Ui.

Import ShowDetailPage.

Record State := mkState {
  page : ShowDetailPage.State;
  showPanel : bool;                 (* hasGenerated of the panel of the show *)
  episodePanel : bool               (* hasGenerated of the panel in the modal *)
}.

Inductive Scope := ofShow | ofEpisode.

Inductive Event :=
| ClickGenerate (scope : Scope)
| Page (h : Handler)
| Resolved (rid : nat) (v : Payload)
| Rejected (rid : nat).

Definition viaPanel (h : Handler) : bool :=
  match h with
  | GenerateShowInsight | GenerateEpisodeInsight => true
  | _ => false
  end.

(** The panel of a scope as the page renders it, if it does: the panel
    of the show is part of the detail view, the panel of the episode is
    inside the modal. *)
Definition panel (scope : Scope) (u : State)
  : option AIInsightPanel.Content :=
  match render (page u) with
  | Detail v =>
      match scope with
      | ofShow =>
          Some (AIInsightPanel.render (showPanel u) (dv_insight v)
                  (dv_isLoadingInsight v))
      | ofEpisode =>
          match dv_modal v with
          | Some m =>
              Some (AIInsightPanel.render (episodePanel u) (mv_insight m)
                      (mv_isLoadingInsight m))
          | None => None
          end
      end
  | Spinner | ErrorView _ => None
  end.

Definition canGenerate (scope : Scope) (u : State) : bool :=
  match panel scope u with
  | Some c => AIInsightPanel.clickable c
  | None => false
  end.

Definition clickGenerate (scope : Scope) (u : State) : State * Calls :=
  if canGenerate scope u then
    match scope with
    | ofShow =>
        let r := AIInsightPanel.handleGenerate handleGenerateShowInsight
                   (showPanel u, page u) in
        ({| page := snd (fst r); showPanel := fst (fst r);
            episodePanel := episodePanel u |},
         snd r)
    | ofEpisode =>
        let r := AIInsightPanel.handleGenerate handleGenerateEpisodeInsight
                   (episodePanel u, page u) in
        ({| page := snd (fst r); showPanel := showPanel u;
            episodePanel := fst (fst r) |},
         snd r)
    end
  else (u, []).

Definition withPage (u : State) (pc : ShowDetailPage.State * Calls)
  : State * Calls :=
  ({| page := fst pc; showPanel := showPanel u;
      episodePanel :=
        match selectedEpisode (fst pc) with
        | Some _ => episodePanel u
        | None => false
        end |},
   snd pc).

Definition step (e : Event) (u : State) : State * Calls :=
  match e with
  | ClickGenerate scope => clickGenerate scope u
  | Page h =>
      if viaPanel h then (u, [])
      else withPage u (ShowDetailPage.call h (page u))
  | Resolved rid v =>
      withPage u (ShowDetailPage.step (ShowDetailPage.Resolved rid v) (page u))
  | Rejected rid =>
      withPage u (ShowDetailPage.step (ShowDetailPage.Rejected rid) (page u))
  end.

Fixpoint run (tr : list Event) (uc : State * Calls) : State * Calls :=
  match tr with
  | [] => uc
  | e :: tr' =>
      let '(u1, c1) := step e (fst uc) in run tr' (u1, snd uc ++ c1)
  end.

Definition mount (id : Z) : State * Calls :=
  ({| page := fst (ShowDetailPage.mount id); showPanel := false;
      episodePanel := false |},
   snd (ShowDetailPage.mount id)).

End Ui.

(** ** The search page with its search bar *)

Module SearchUi.

Inductive Event :=
| Debounced (debouncedQuery : jsstring)     (* the debounced value changes *)
| Resolved (rid : nat) (response : SearchResponse)
| Rejected (rid : nat).

Definition step (e : Event) (s : SearchPage.State)
  : SearchPage.State * Calls :=
  match e with
  | Debounced q => SearchBar.effect SearchPage.handleSearch q s
  | Resolved rid response =>
      SearchPage.step (SearchPage.Resolved rid response) s
  | Rejected rid => SearchPage.step (SearchPage.Rejected rid) s
  end.

Fixpoint run (tr : list Event) (sc : SearchPage.State * Calls)
  : SearchPage.State * Calls :=
  match tr with
  | [] => sc
  | e :: tr' =>
      let '(s1, c1) := step e (fst sc) in run tr' (s1, snd sc ++ c1)
  end.

End SearchUi.

(** ** Sample data and scenarios *)

Module Sample.

Definition lost : SearchResult :=
  {| sr_score := 9; sr_show := {| sh_id := 123; sh_name := lit "Lost" |} |}.

Definition dark : SearchResult :=
  {| sr_score := 8; sr_show := {| sh_id := 456; sh_name := lit "Dark" |} |}.

Definition lostResponse : SearchResponse :=
  {| resp_results := [lost]; resp_query := lit "lost" |}.



Definition pilot : Episode :=
  {| ep_id := 10; ep_show_id := 123; ep_name := lit "Pilot";
     ep_season := 1; ep_number := 1 |}.

Definition tabulaRasa : Episode :=
  {| ep_id := 11; ep_show_id := 123; ep_name := lit "Tabula Rasa";
     ep_season := 1; ep_number := 2 |}.

Definition lostDetail : ShowDetail :=
  {| sd_show := sr_show lost;
     sd_seasons := [ {| se_season := 1; se_episodes := [pilot; tabulaRasa] |} ] |}.

Definition onPilot : Comment :=
  {| c_id := 100; c_content := lit "what a crash"; c_show_id := 123;
     c_episode_id := Some 10%Z; c_created_at := lit "2024-01-01T10:00:00" |}.

Definition onTabulaRasa : Comment :=
  {| c_id := 101; c_content := lit "who is Kate"; c_show_id := 123;
     c_episode_id := Some 11%Z; c_created_at := lit "2024-01-02T10:00:00" |}.

Definition onShow : Comment :=
  {| c_id := 102; c_content := lit "six seasons"; c_show_id := 123;
     c_episode_id := None; c_created_at := lit "2024-01-03T10:00:00" |}.


Definition lostInsight : AIInsight :=
  {| ai_content := lit "mystery"; ai_show_id := 123;
     ai_episode_id := None; ai_generated_at := lit "2024-01-05T10:00:00" |}.

(** The three loads of the page of show 123 answered: details, comments,
    watched episodes (the pilot is watched). *)
Definition loaded : list ShowDetailPage.Event :=
  [ ShowDetailPage.Resolved 0 (ShowDetailPage.ofShowDetail lostDetail);
    ShowDetailPage.Resolved 2
      (ShowDetailPage.ofComments {| cr_comments := [onShow] |});
    ShowDetailPage.Resolved 1
      (ShowDetailPage.ofWatchedEpisodes
         {| we_show_id := 123; we_episode_ids := [10%Z] |}) ].

(** The page of show 123 once it is ready. *)
Definition ready : ShowDetailPage.State :=
  fst (ShowDetailPage.run loaded (ShowDetailPage.mount 123)).

(** The modal is opened on the pilot, closed, and opened on the next
    episode while the comments of the pilot are still on their way; the
    comments of the second episode arrive, then those of the pilot. *)
Definition lateLoad : list ShowDetailPage.Event :=
  [ ShowDetailPage.Call (ShowDetailPage.ViewEpisodeComments pilot);
    ShowDetailPage.Call ShowDetailPage.CloseEpisodeModal;
    ShowDetailPage.Call (ShowDetailPage.ViewEpisodeComments tabulaRasa);
    ShowDetailPage.Resolved 4
      (ShowDetailPage.ofComments {| cr_comments := [onTabulaRasa] |});
    ShowDetailPage.Resolved 3
      (ShowDetailPage.ofComments {| cr_comments := [onPilot] |}) ].


(** The page of show 123 with its panels: the three loads are answered,
    then the button of the panel of the show is clicked. *)
Definition generating : list Ui.Event :=
  [ Ui.Resolved 0 (ShowDetailPage.ofShowDetail lostDetail);
    Ui.Resolved 2 (ShowDetailPage.ofComments {| cr_comments := [onShow] |});
    Ui.Resolved 1
      (ShowDetailPage.ofWatchedEpisodes
         {| we_show_id := 123; we_episode_ids := [10%Z] |});
    Ui.ClickGenerate Ui.ofShow ].

(** A show announced but without any season yet. *)
Definition announced : ShowDetail :=
  {| sd_show := sr_show dark; sd_seasons := [] |}.

(** A draft of 2001 letters. *)
Definition longDraft : jsstring := replicate 2001 97%N.

End Sample.

(** ** States and invariants of the detail page *)

Module PageInv.

Import ShowDetailPage.

(** The page right after its three loads have been answered. *)
Definition loadedState (id : Z) (d : ShowDetail)
    (w : WatchedEpisodesResponse) (c : CommentsResponse) : State :=
  {| showId := id; showData := Some d;
     watchedEpisodes := list_to_set (we_episode_ids w);
     showComments := cr_comments c; showInsight := None;
     selectedSeason := se_season <$> head (sd_seasons d);
     isLoading := false; isLoadingComments := false;
     isLoadingInsight := false; error := None;
     selectedEpisode := None; episodeComments := [];
     episodeInsight := None; isLoadingEpisodeComments := false;
     isLoadingEpisodeInsight := false;
     loads := {| details := Some d; watched := Some w; comments := Some c;
                 rejected := false |};
     pending := ∅; next := 3 |}.

(** The answers to the three loads, in the order of the calls. *)
Definition answers (d : ShowDetail) (w : WatchedEpisodesResponse)
    (c : CommentsResponse) : list Event :=
  [ Resolved 0 (ofShowDetail d); Resolved 1 (ofWatchedEpisodes w);
    Resolved 2 (ofComments c) ].

(** The load has failed: [Promise.all] has rejected and the [catch] and
    [finally] blocks have run. *)
Definition loadFailed (s : State) : Prop :=
  rejected (loads s) = true ∧ error s = Some loadError ∧ isLoading s = false.

(** Has [Promise.all] got the value of this promise? *)
Definition stored (slot : Slot) (p : PromiseAll) : bool :=
  match slot with
  | detailsSlot => bool_decide (is_Some (details p))
  | watchedSlot => bool_decide (is_Some (watched p))
  | commentsSlot => bool_decide (is_Some (comments p))
  end.

(** What holds of the variables of the load in every state the page can
    be in: a rejected [Promise.all] has shown its error; the show is set
    only once the three values are there; a load still awaited has not
    delivered, and no two promises stand for the same load. *)
Definition loadInv (s : State) : Prop :=
  (rejected (loads s) = true → loadFailed s)
  ∧ (∀ d, showData s = Some d →
       ∃ w c, loads s = {| details := Some d; watched := Some w;
                           comments := Some c; rejected := false |})
  ∧ (∀ rid slot, pending s !! rid = Some (loadShowData_k slot) →
       stored slot (loads s) = false)
  ∧ (∀ rid rid' slot,
       pending s !! rid = Some (loadShowData_k slot) →
       pending s !! rid' = Some (loadShowData_k slot) → rid = rid').

(** The continuation a handler leaves behind when it is called in [s],
    if it makes a call at all. *)
Definition contOf (h : Handler) (s : State) : option Cont :=
  match h with
  | ToggleWatched episodeId =>
      Some (handleToggleWatched_k episodeId
              (bool_decide (episodeId ∈ watchedEpisodes s)))
  | AddShowComment _ => Some handleAddShowComment_k
  | DeleteShowComment commentId => Some (handleDeleteShowComment_k commentId)
  | GenerateShowInsight => Some handleGenerateShowInsight_k
  | ViewEpisodeComments _ => Some handleViewEpisodeComments_k
  | AddEpisodeComment _ =>
      match selectedEpisode s with
      | Some _ => Some handleAddEpisodeComment_k
      | None => None
      end
  | DeleteEpisodeComment commentId =>
      Some (handleDeleteEpisodeComment_k commentId)
  | GenerateEpisodeInsight =>
      match selectedEpisode s with
      | Some _ => Some handleGenerateEpisodeInsight_k
      | None => None
      end
  | CloseEpisodeModal | SelectSeason _ => None
  end.

Definition isLoad (k : Cont) : bool :=
  match k with loadShowData_k _ => true | _ => false end.

End PageInv.

(** ** Insight generations in flight *)

Module InsightInv.

Import ShowDetailPage Ui.

(** The loading flag, the stored insight and the continuation of a
    generation, for each of the two scopes. *)
Definition flag (scope : Scope) (p : ShowDetailPage.State) : bool :=
  match scope with
  | ofShow => isLoadingInsight p
  | ofEpisode => isLoadingEpisodeInsight p
  end.

Definition insightOf (scope : Scope) (p : ShowDetailPage.State)
  : option AIInsight :=
  match scope with
  | ofShow => showInsight p
  | ofEpisode => episodeInsight p
  end.

Definition hasGenerated (scope : Scope) (u : Ui.State) : bool :=
  match scope with
  | ofShow => showPanel u
  | ofEpisode => episodePanel u
  end.

Definition genCont (scope : Scope) : Cont :=
  match scope with
  | ofShow => handleGenerateShowInsight_k
  | ofEpisode => handleGenerateEpisodeInsight_k
  end.

(** Promise numbers are fresh; the loading flag of a scope is set exactly
    while a generation of that scope is awaited; at most one is. *)
Definition genInvOn (pend : gmap nat Cont) (nxt : nat) (fl : Scope → bool)
  : Prop :=
  (∀ rid k, pend !! rid = Some k → rid < nxt)
  ∧ ∀ scope,
      (fl scope = true ↔ ∃ rid, pend !! rid = Some (genCont scope))
      ∧ (∀ r1 r2, pend !! r1 = Some (genCont scope) →
                  pend !! r2 = Some (genCont scope) → r1 = r2).

Definition genInv (p : ShowDetailPage.State) : Prop :=
  genInvOn (pending p) (next p) (λ scope, flag scope p).

End InsightInv.

(** ** The summary without its markup *)

Module Summary.

Definition lessThan : N := 60.
Definition greaterThan : N := 62.

(** [text.replace(/<[^>]*>/g, '')], read from left to right: outside a
    tag, a [<] opens one if a [>] follows somewhere (the class [[^>]]
    takes every other code unit, [<] and line ends included), and the tag
    ends at the first [>]; a [<] with no [>] after it stays. *)
Fixpoint stripFrom (inTag : bool) (text : jsstring) : jsstring :=
  match text with
  | [] => []
  | c :: rest =>
      if inTag then
        if (c =? greaterThan)%N then stripFrom false rest
        else stripFrom true rest
      else if (c =? lessThan)%N && existsb (N.eqb greaterThan) rest
      then stripFrom true rest
      else c :: stripFrom false rest
  end.

Definition stripTags (text : jsstring) : jsstring := stripFrom false text.

(** [summary ? summary.replace(...) : null], as in [cleanSummary] of the
    detail page and of the episode card. *)
Definition cleanSummary (summary : option jsstring) : option jsstring :=
  match summary with
  | Some text => if truthy text then Some (stripTags text) else None
  | None => None
  end.

(** No [<] of the text has a [>] somewhere after it. *)
Definition tagFree (text : jsstring) : Prop :=
  ∀ i j, i < j → text !! i = Some lessThan → text !! j ≠ Some greaterThan.

End Summary.

(** ** The watch progress of the detail page *)

Module Progress.

Import ShowDetailPage.

(** [seasons.reduce((sum, s) => sum + s.episodes.length, 0)] *)
Definition totalEpisodes (seasons : list SeasonEpisodes) : nat :=
  foldl (λ sum s, sum + length (se_episodes s)) 0 seasons.

(** [watchedEpisodes.size] *)
Definition watchedCount (s : State) : nat := size (watchedEpisodes s).

(** Has [Promise.all] got its three values? *)
Definition allStored (p : PromiseAll) : bool :=
  PageInv.stored detailsSlot p && PageInv.stored watchedSlot p
  && PageInv.stored commentsSlot p.

(** The spinner is down only once [Promise.all] has settled, and it is
    down once it has its three values. *)
Definition spinnerInv (s : State) : Prop :=
  (isLoading s = false → rejected (loads s) = true ∨ allStored (loads s) = true)
  ∧ (allStored (loads s) = true → rejected (loads s) = false →
     isLoading s = false).

End Progress.

(** ** What the search page shows *)

Module SearchView.

Import SearchPage.

(** The four blocks under the search bar. *)
Record View := mkView {
  errorShown : option jsstring;      (* {error && ...} *)
  noShowsFound : bool;               (* "No shows found" *)
  grid : list SearchResult;          (* the cards, when there are results *)
  welcome : bool                     (* "Start your journey" *)
}.

Definition render (s : State) : View :=
  {| errorShown :=
       match error s with
       | Some message => if truthy message then Some message else None
       | None => None
       end;
     noShowsFound :=
       negb (ShowDetailPage.isTruthy (error s)) && hasSearched s
       && negb (isLoading s) && (length (results s) =? 0);
     grid := results s;
     welcome := negb (hasSearched s) |}.

(** The queries the search bar passes on for the debounced values of a
    run: the values that are not blank, trimmed. *)
Definition queriesOf (tr : list SearchUi.Event) : list jsstring :=
  omap (λ e, match e with
             | SearchUi.Debounced q =>
                 if truthy (trim q) then Some (trim q) else None
             | _ => None
             end) tr.

(** What holds of the page behind its search bar: before the first
    search it is as it was at the start; the spinner turns only while an
    answer is awaited; the only error it shows is that of a failed
    search. *)
Definition barInv (s : State) : Prop :=
  (hasSearched s = false → s = init)
  ∧ (isLoading s = true → pending s ≠ ∅)
  ∧ (error s = None ∨ error s = Some searchError).

End SearchView.

(** ** The detail page with the comment form of the show

    The page hands [handleAddShowComment] to the [CommentsSection] of the
    show and calls it nowhere else; the section is part of the detail
    view.  [handleSubmit] awaits the promise of [handleAddShowComment],
    so its own continuation runs right after the one of the page. *)

Module CommentsUi.

Import ShowDetailPage.

Record State := mkState {
  page : ShowDetailPage.State;
  section : CommentsSection.State
}.

Inductive Event :=
| Change (value : jsstring)          (* typing in the textarea *)
| Submit                             (* the form is submitted *)
| Page (h : Handler)                 (* the other handlers of the page *)
| Resolved (rid : nat) (v : Payload)
| Rejected (rid : nat).

Definition mounted (u : State) : bool :=
  match render (page u) with
  | Detail _ => true
  | Spinner | ErrorView _ => false
  end.

Definition viaSection (h : Handler) : bool :=
  match h with AddShowComment _ => true | _ => false end.

Definition isAdd (k : option Cont) : bool :=
  match k with Some handleAddShowComment_k => true | _ => false end.

Definition step (e : Event) (u : State) : State * Calls :=
  match e with
  | Change value =>
      if mounted u
      then ({| page := page u;
               section := CommentsSection.onChange value (section u) |}, [])
      else (u, [])
  | Submit =>
      if mounted u then
        let r := CommentsSection.handleSubmit handleAddShowComment
                   (section u, page u) in
        ({| page := snd (fst r); section := fst (fst r) |}, snd r)
      else (u, [])
  | Page h =>
      if viaSection h then (u, [])
      else ({| page := fst (call h (page u)); section := section u |},
            snd (call h (page u)))
  | Resolved rid v =>
      let k := pending (page u) !! rid in
      ({| page := fst (ShowDetailPage.step (ShowDetailPage.Resolved rid v)
                         (page u));
          section :=
            match v with
            | ofComment _ =>
                if isAdd k
                then CommentsSection.handleSubmit_resolved (section u)
                else section u
            | _ => section u
            end |}, [])
  | Rejected rid =>
      let k := pending (page u) !! rid in
      ({| page := fst (ShowDetailPage.step (ShowDetailPage.Rejected rid)
                         (page u));
          section :=
            if isAdd k
            then CommentsSection.handleSubmit_rejected (section u)
            else section u |}, [])
  end.

Fixpoint run (tr : list Event) (uc : State * Calls) : State * Calls :=
  match tr with
  | [] => uc
  | e :: tr' =>
      let '(u1, c1) := step e (fst uc) in run tr' (u1, snd uc ++ c1)
  end.

Definition mount (id : Z) : State * Calls :=
  ({| page := fst (ShowDetailPage.mount id);
      section := CommentsSection.initial |},
   snd (ShowDetailPage.mount id)).

(** Promise numbers are fresh; the form is submitting exactly while a
    creation is awaited; at most one is. *)
Definition addInv (u : State) : Prop :=
  (∀ rid k, pending (page u) !! rid = Some k → rid < next (page u))
  ∧ (CommentsSection.isSubmitting (section u) = true
     ↔ ∃ rid, pending (page u) !! rid = Some handleAddShowComment_k)
  ∧ (∀ r1 r2, pending (page u) !! r1 = Some handleAddShowComment_k →
              pending (page u) !! r2 = Some handleAddShowComment_k →
              r1 = r2).

(** The three loads answered, a comment typed and submitted. *)
Definition submitting : list Event :=
  [ Resolved 0 (ofShowDetail Sample.lostDetail);
    Resolved 1 (ofWatchedEpisodes {| we_show_id := 123;
                                     we_episode_ids := [] |});
    Resolved 2 (ofComments {| cr_comments := [Sample.onShow] |});
    Change (lit " what a crash "); Submit ].

End CommentsUi.

(** ** The panel of the show after a first generation has failed *)

Module PanelInv.

Import ShowDetailPage Ui.

(** A generation of the show insight was started from the panel, none is
    awaited, and no insight is stored. *)
Definition stuck (u : Ui.State) : Prop :=
  showPanel u = true
  ∧ showInsight (page u) = None
  ∧ isLoadingInsight (page u) = false
  ∧ ∀ rid, pending (page u) !! rid ≠ Some handleGenerateShowInsight_k.

(** A request for the insight of the show, not of an episode. *)
Definition forShowInsight (call : nat * Request) : bool :=
  match snd call with
  | generateInsight request => negb (bool_decide (is_Some (ir_episode_id request)))
  | _ => false
  end.

End PanelInv.

(** ** The requests a comment form makes *)

Module FormCalls.

(** A creation of a comment on the show itself. *)
Definition showCommentOf (call : nat * Request) : option jsstring :=
  match snd call with
  | createComment request =>
      match cc_episode_id request with
      | None => Some (cc_content request)
      | Some _ => None
      end
  | _ => None
  end.

End FormCalls.

(** * Properties *)

(** ** Strings *)

Lemma trimStart_length (s : jsstring) : length (trimStart s) ≤ length s.
Proof.
  induction s as [|c s IH]; simpl; [lia|].
  destruct (isWhiteSpace c); simpl; lia.
Qed.

Lemma trim_length (s : jsstring) : length (trim s) ≤ length s.
Proof.
  unfold trim, trimEnd. rewrite length_rev.
  etrans; [apply trimStart_length|]. rewrite length_rev.
  apply trimStart_length.
Qed.

(** ** Search *)

Section Search.

Import SearchPage Sample.

Lemma handleSearch_blank (query : jsstring) (s : State) :
  truthy (trim query) = false →
  handleSearch query s =
    ({| results := []; isLoading := isLoading s; hasSearched := false;
        error := error s; pending := pending s; next := next s |}, []).
Proof. intros H. unfold handleSearch. by rewrite H. Qed.





(** C8 at the failing input: "lost" has been searched and its result is
    on display; the user then empties the field.  The effect of the
    search bar does not call [onSearch] for a blank value, so the page
    is left as it is, results included, whereas [handleSearch] called
    with the same value would have emptied them. *)
Lemma C8_cleared_input_keeps_results :
  let s := fst (SearchUi.run
                  [ SearchUi.Debounced (lit "lost");
                    SearchUi.Resolved 0 lostResponse ]
                  (init, [])) in
  results s = [lost]
  ∧ SearchUi.step (SearchUi.Debounced []) s = (s, [])
  ∧ SearchUi.step (SearchUi.Debounced (lit "   ")) s = (s, [])
  ∧ results (fst (handleSearch (lit "   ") s)) = [].
Proof. vm_compute. done. Qed.

End Search.

(** The effect of the search bar on a blank value, in general: no call
    of [onSearch], hence no request and no change of the page. *)
Lemma SearchBar_effect_blank {S : Type} (onSearch : jsstring → S → S * Calls)
    (q : jsstring) (s : S) :
  truthy (trim q) = false → SearchBar.effect onSearch q s = (s, []).
Proof. intros H. unfold SearchBar.effect. by rewrite H. Qed.

(** ** The detail page: single steps *)

Section PageSteps.

Import ShowDetailPage.

Lemma step_Rejected (s : State) (rid : nat) (k : Cont) :
  pending s !! rid = Some k →
  step (Rejected rid) s = (throw k (settle rid s), []).
Proof. intros H. simpl. by rewrite H. Qed.

Lemma await_pending (call : Request) (k : Cont) (s : State) :
  pending (fst (await call k s)) !! next s = Some k.
Proof. simpl. apply lookup_insert_eq. Qed.

(** The promise just made by [await] is rejected. *)
Ltac reject_awaited :=
  match goal with
  | |- context [step (Rejected ?r) (fst (await ?c ?k ?s0))] =>
      let H := fresh in
      assert (H : pending (fst (await c k s0)) !! r = Some k)
        by (cbn; apply lookup_insert_eq);
      rewrite (step_Rejected _ _ _ H); clear H
  end.

Lemma await_pair (call : Request) (k : Cont) (s : State) :
  await call k s = (fst (await call k s), [(next s, call)]).
Proof. reflexivity. Qed.

(** C5: [handleToggleWatched] flips the membership of the episode at once
    and asks the server; if the request fails, at once or in any later
    state [s'] in which it is still unanswered, the episode gets back the
    membership it had before the call and no request is made again; if it
    succeeds, the set is left as it is.  Other episodes are never
    touched. *)
Theorem C5_toggle_is_optimistic_and_reverts
    (s s' : State) (episodeId : Z) :
  let wasWatched := bool_decide (episodeId ∈ watchedEpisodes s) in
  let rid := next s in
  let '(s1, calls) := handleToggleWatched episodeId s in
  pending s' !! rid = Some (handleToggleWatched_k episodeId wasWatched) →
  (* right after the call *)
  (episodeId ∈ watchedEpisodes s1 ↔ episodeId ∉ watchedEpisodes s)
  ∧ (∀ e, e ≠ episodeId → e ∈ watchedEpisodes s1 ↔ e ∈ watchedEpisodes s)
  ∧ calls =
      [(rid, if wasWatched
             then unmarkEpisodeWatched (showId s) episodeId
             else markEpisodeWatched
                    {| mw_episode_id := episodeId; mw_show_id := showId s |})]
  ∧ pending s1 !! rid = Some (handleToggleWatched_k episodeId wasWatched)
  (* the request fails at once *)
  ∧ watchedEpisodes (fst (step (Rejected rid) s1)) = watchedEpisodes s
  ∧ snd (step (Rejected rid) s1) = []
  (* the request fails in the later state s' *)
  ∧ (let '(s2, calls2) := step (Rejected rid) s' in
     (episodeId ∈ watchedEpisodes s2 ↔ episodeId ∈ watchedEpisodes s)
     ∧ (∀ e, e ≠ episodeId → e ∈ watchedEpisodes s2 ↔ e ∈ watchedEpisodes s')
     ∧ calls2 = [] ∧ pending s2 = delete rid (pending s'))
  (* the request succeeds in the later state s' *)
  ∧ (∀ v, let '(s3, calls3) := step (Resolved rid v) s' in
     watchedEpisodes s3 = watchedEpisodes s'
     ∧ calls3 = [] ∧ pending s3 = delete rid (pending s')).
Proof.
  unfold handleToggleWatched. cbn zeta. rewrite await_pair. intros Hs'.
  rewrite (step_Rejected _ _ _ Hs').
  reject_awaited.
  cbn [await fst snd throw handleToggleWatched_rejected settle
       setWatchedEpisodes watchedEpisodes pending next showId].
  rewrite lookup_insert_eq.
  case_bool_decide as Hw; split_and!; try done.
  all: try (intros v; cbn [step]; rewrite Hs'; done).
  all: try (apply set_eq; intros e; destruct (decide (e = episodeId))).
  all: set_solver.
Qed.

Lemma C5_toggle_is_optimistic_and_reverts_witness :
  let s := Sample.ready in
  let s' := fst (run [Call (ToggleWatched 10); Call (ToggleWatched 11)]
                   (s, [])) in
  pending s' !! next s = Some (handleToggleWatched_k 10 true)
  ∧ watchedEpisodes (fst (step (Rejected (next s))
                            (fst (handleToggleWatched 10 s))))
    = watchedEpisodes s.
Proof.
  assert (H : pending (fst (run [Call (ToggleWatched 10);
                                 Call (ToggleWatched 11)] (Sample.ready, [])))
              !! next Sample.ready = Some (handleToggleWatched_k 10 true))
    by (vm_compute; reflexivity).
  split; [exact H|].
  pose proof (C5_toggle_is_optimistic_and_reverts Sample.ready _ 10 H)
    as (_ & _ & _ & _ & T & _).
  exact T.
Defined.

(** C9: adding a comment leaves both lists as they are when it is
    called and when the request fails; when the request succeeds, in
    whatever state [s'] that happens, the comment the server returned is
    put in front of the list of its scope and the rest of that list is
    kept in order.  [handleAddEpisodeComment] does nothing without a
    selected episode. *)
Theorem C9_comment_prepended_on_confirmation
    (s s' : State) (content : jsstring) (rid : nat) (comment : Comment) :
  pending s' !! rid = Some handleAddShowComment_k
  ∨ pending s' !! rid = Some handleAddEpisodeComment_k →
  (* the calls *)
  (let '(s1, calls) := handleAddShowComment content s in
   showComments s1 = showComments s ∧ episodeComments s1 = episodeComments s
   ∧ calls = [(next s, createComment {| cc_content := content;
                                        cc_show_id := showId s;
                                        cc_episode_id := None |})]
   ∧ pending s1 !! next s = Some handleAddShowComment_k)
  ∧ (let '(s1, calls) := handleAddEpisodeComment content s in
     showComments s1 = showComments s ∧ episodeComments s1 = episodeComments s
     ∧ match selectedEpisode s with
       | Some episode =>
           calls = [(next s, createComment
                               {| cc_content := content; cc_show_id := showId s;
                                  cc_episode_id := Some (ep_id episode) |})]
           ∧ pending s1 !! next s = Some handleAddEpisodeComment_k
       | None => calls = [] ∧ s1 = s
       end)
  (* the answers *)
  ∧ (let '(s2, calls2) := step (Resolved rid (ofComment comment)) s' in
     calls2 = []
     ∧ match pending s' !! rid with
       | Some handleAddShowComment_k =>
           showComments s2 = comment :: showComments s'
           ∧ episodeComments s2 = episodeComments s'
       | _ =>
           episodeComments s2 = comment :: episodeComments s'
           ∧ showComments s2 = showComments s'
       end)
  ∧ (let '(s3, calls3) := step (Rejected rid) s' in
     calls3 = [] ∧ showComments s3 = showComments s'
     ∧ episodeComments s3 = episodeComments s').
Proof.
  intros Hk. split_and!.
  - unfold handleAddShowComment. rewrite await_pair. split_and!; try done.
    apply await_pending.
  - unfold handleAddEpisodeComment. destruct (selectedEpisode s); [|done].
    rewrite await_pair. split_and!; try done. apply await_pending.
  - destruct Hk as [Hk|Hk]; cbn [step]; rewrite Hk; done.
  - destruct Hk as [Hk|Hk]; cbn [step]; rewrite Hk; done.
Qed.

Lemma C9_comment_prepended_on_confirmation_witness :
  let s' := fst (handleAddShowComment (lit "six seasons") Sample.ready) in
  pending s' !! 3 = Some handleAddShowComment_k
  ∧ showComments s' = [Sample.onShow]
  ∧ showComments (fst (step (Resolved 3 (ofComment Sample.onPilot)) s'))
    = [Sample.onPilot; Sample.onShow].
Proof.
  assert (H : pending (fst (handleAddShowComment (lit "six seasons")
                              Sample.ready)) !! 3
              = Some handleAddShowComment_k) by (vm_compute; reflexivity).
  split; [exact H|]. split; [reflexivity|].
  pose proof (C9_comment_prepended_on_confirmation Sample.ready _
                (lit "six seasons") 3 Sample.onPilot (or_introl H))
    as (_ & _ & T & _).
  destruct (step (Resolved 3 (ofComment Sample.onPilot)) _) as [s2 c2].
  destruct T as [_ T]. rewrite H in T. apply T.
Defined.

(** C10: when the load of the comments of an episode fails, in whatever
    state [s] that happens, the list of episode comments is emptied and
    its loading flag cleared; nothing else changes: the selected episode
    stays, and so do the three variables the guards of the page read
    ([isLoading], [error], [showData]), so the page renders the same
    branch as before.  Opened on an episode and failed at once, the modal
    shows that episode with no comments and no skeleton. *)
Theorem C10_failed_episode_load_stays_local
    (s : State) (rid : nat) (episode : Episode) :
  pending s !! rid = Some handleViewEpisodeComments_k →
  (let '(s1, calls) := step (Rejected rid) s in
   s1 = setIsLoadingEpisodeComments false (setEpisodeComments [] (settle rid s))
   ∧ calls = []
   ∧ episodeComments s1 = [] ∧ isLoadingEpisodeComments s1 = false
   ∧ selectedEpisode s1 = selectedEpisode s
   ∧ error s1 = error s ∧ isLoading s1 = isLoading s
   ∧ showData s1 = showData s
   ∧ match render s, render s1 with
     | Spinner, Spinner => True
     | ErrorView m, ErrorView m1 => m1 = m
     | Detail v, Detail v1 =>
         dv_modal v1 = modal s1 ∧ dv_show v1 = dv_show v
         ∧ dv_episodes v1 = dv_episodes v ∧ dv_comments v1 = dv_comments v
     | _, _ => False
     end)
  ∧ (let '(s0, calls0) := handleViewEpisodeComments episode s in
     pending s0 !! next s = Some handleViewEpisodeComments_k
     ∧ modal (fst (step (Rejected (next s)) s0))
       = Some {| mv_episode := episode; mv_insight := None;
                 mv_isLoadingInsight := isLoadingEpisodeInsight s;
                 mv_comments := []; mv_isLoadingComments := false |}
     ∧ error (fst (step (Rejected (next s)) s0)) = error s).
Proof.
  intros Hk. split.
  - rewrite (step_Rejected _ _ _ Hk). cbn [throw].
    unfold handleViewEpisodeComments_rejected. split_and!; try done.
    unfold render. cbn.
    destruct (isLoading s); [done|].
    destruct (showData s); [|done]. destruct (isTruthy (error s)); done.
  - unfold handleViewEpisodeComments. rewrite await_pair.
    reject_awaited.
    split_and!; try done. cbn. apply lookup_insert_eq.
Qed.

Lemma C10_failed_episode_load_stays_local_witness :
  let s := fst (handleViewEpisodeComments Sample.pilot Sample.ready) in
  pending s !! 3 = Some handleViewEpisodeComments_k
  ∧ modal (fst (step (Rejected 3) s))
    = Some {| mv_episode := Sample.pilot; mv_insight := None;
              mv_isLoadingInsight := false;
              mv_comments := []; mv_isLoadingComments := false |}
  ∧ error (fst (step (Rejected 3) s)) = error s.
Proof.
  assert (H : pending (fst (handleViewEpisodeComments Sample.pilot
                              Sample.ready)) !! 3
              = Some handleViewEpisodeComments_k) by (vm_compute; reflexivity).
  split; [exact H|].
  pose proof (C10_failed_episode_load_stays_local _ 3 Sample.pilot H)
    as [T _].
  destruct (step (Rejected 3) _) as [s1 c1].
  destruct T as (-> & _). split; reflexivity.
Defined.

End PageSteps.

(** ** The detail page: loading *)

Section Loading.

Import ShowDetailPage PageInv.

(** A property kept by every step holds all along a run. *)
Lemma run_invariant (I : State → Prop) :
  (∀ e s, I s → I (fst (step e s))) →
  ∀ tr sc, I (fst sc) → I (fst (run tr sc)).
Proof.
  intros Hstep tr. induction tr as [|e tr IH]; intros sc Hsc; [done|].
  simpl. destruct (step e (fst sc)) as [s1 c1] eqn:E.
  apply IH. simpl. replace s1 with (fst (step e (fst sc))) by by rewrite E.
  by apply Hstep.
Qed.

Lemma mount_loaded (id : Z) (d : ShowDetail) (w : WatchedEpisodesResponse)
    (c : CommentsResponse) (tr : list Event) :
  tr ∈ permutations (answers d w c) →
  fst (run tr (mount id)) = loadedState id d w c.
Proof.
  intros H. destruct d as [sh seasons].
  cbn in H. rewrite !elem_of_cons, elem_of_nil in H.
  destruct H as [->|[->|[->|[->|[->|[->|[]]]]]]];
    destruct seasons; vm_compute; reflexivity.
Qed.

(** No handler other than the load writes [loads], [error], [isLoading]
    or [showData]. *)
Lemma call_keeps_load (h : Handler) (s : State) :
  let s' := fst (call h s) in
  loads s' = loads s ∧ error s' = error s ∧ isLoading s' = isLoading s
  ∧ showData s' = showData s.
Proof.
  destruct h; cbn; try done.
  all: unfold handleAddEpisodeComment, handleGenerateEpisodeInsight.
  all: destruct (selectedEpisode s); done.
Qed.

Lemma loadShowData_resolved_fields (d : ShowDetail)
    (w : WatchedEpisodesResponse) (c : CommentsResponse) (s : State) :
  let s' := loadShowData_resolved d w c s in
  loads s' = loads s ∧ error s' = error s ∧ isLoading s' = false
  ∧ showData s' = Some d
  ∧ selectedSeason s' = match sd_seasons d with
                        | first :: _ => Some (se_season first)
                        | [] => selectedSeason s
                        end.
Proof. unfold loadShowData_resolved. destruct (sd_seasons d); done. Qed.

Lemma all_resolved_fields (p : PromiseAll) (s : State) :
  let s' := all_resolved p s in
  loads s' = p ∧ error s' = error s
  ∧ (rejected p = true → isLoading s' = isLoading s)
  ∧ showData s' =
      if rejected p then showData s
      else match details p, watched p, comments p with
           | Some d, Some _, Some _ => Some d
           | _, _, _ => showData s
           end.
Proof.
  unfold all_resolved. destruct (rejected p); [done|].
  destruct (details p) as [d|], (watched p) as [w|], (comments p) as [c|];
    try done.
  destruct (loadShowData_resolved_fields d w c (setLoads p s))
    as (-> & -> & _ & -> & _). done.
Qed.

Lemma all_rejected_fields (s : State) :
  let s' := all_rejected s in
  rejected (loads s') = true ∧ showData s' = showData s
  ∧ (rejected (loads s) = false → loadFailed s').
Proof.
  unfold all_rejected, loadFailed.
  destruct (rejected (loads s)) eqn:E; [done|]. done.
Qed.

(** The table of promises after a call, an answer, a failure. *)
Lemma call_pending (h : Handler) (s : State) :
  let s' := fst (call h s) in
  match contOf h s with
  | Some k =>
      pending s' = <[next s := k]> (pending s) ∧ next s' = S (next s)
      ∧ isLoad k = false ∧ ∃ req, snd (call h s) = [(next s, req)]
  | None => pending s' = pending s ∧ next s' = next s ∧ snd (call h s) = []
  end.
Proof.
  destruct h; cbn; eauto.
  all: unfold handleAddEpisodeComment, handleGenerateEpisodeInsight.
  all: destruct (selectedEpisode s); cbn; eauto.
Qed.

Lemma resume_pending (k : Cont) (v : Payload) (s s' : State) :
  resume k v s = Some s' → pending s' = pending s ∧ next s' = next s.
Proof.
  destruct k as [[]| | | | | | | |], v; cbn; intros H; simplify_eq; try done.
  all: unfold all_resolved; cbn; repeat case_match; try done.
  all: unfold loadShowData_resolved; repeat case_match; done.
Qed.

Lemma throw_pending (k : Cont) (s : State) :
  pending (throw k s) = pending s ∧ next (throw k s) = next s.
Proof.
  destruct k; cbn; try done. unfold all_rejected. by case_match.
Qed.

(** A step never adds a promise of the load. *)
Lemma step_no_new_load (e : Event) (s : State) (rid : nat) (slot : Slot) :
  pending (fst (step e s)) !! rid = Some (loadShowData_k slot) →
  pending s !! rid = Some (loadShowData_k slot).
Proof.
  destruct e as [h|rid0 v|rid0]; cbn [step].
  - pose proof (call_pending h s) as H. destruct (contOf h s) as [k|].
    + destruct H as (-> & _ & Hk & _).
      intros [[_ ->]|[_ ?]]%lookup_insert_Some; done.
    + destruct H as (-> & _). done.
  - destruct (pending s !! rid0) as [k|] eqn:Hk; [|done].
    destruct (resume k v (settle rid0 s)) as [s'|] eqn:Hr; [|done].
    apply resume_pending in Hr as [Hr _]. cbn [fst]. rewrite Hr. cbn.
    by intros [_ ?]%lookup_delete_Some.
  - destruct (pending s !! rid0) as [k|] eqn:Hk; [|done].
    cbn [fst]. destruct (throw_pending k (settle rid0 s)) as [-> _]. cbn.
    by intros [_ ?]%lookup_delete_Some.
Qed.

(** How a step changes the variables of the load: it leaves them alone,
    or it is an answer to one of the three loads. *)
Lemma step_load (e : Event) (s : State) :
  let s' := fst (step e s) in
  (loads s' = loads s ∧ error s' = error s ∧ isLoading s' = isLoading s
   ∧ showData s' = showData s)
  ∨ (∃ slot d w c rid,
       pending s !! rid = Some (loadShowData_k slot)
       ∧ stored slot (store slot d w c (loads s)) = true
       ∧ s' = all_resolved (store slot d w c (loads s)) (settle rid s))
  ∨ (∃ slot rid,
       pending s !! rid = Some (loadShowData_k slot)
       ∧ s' = all_rejected (settle rid s)).
Proof.
  destruct e as [h|rid v|rid]; cbn [step].
  - left. apply call_keeps_load.
  - destruct (pending s !! rid) as [k|] eqn:Hk; [|by left].
    destruct k as [[]| | | | | | | |], v; cbn [resume fst];
      try (by left).
    all: right; left; eexists _, _, _, _, rid.
    all: split; [exact Hk|split; [|reflexivity]]; done.
  - destruct (pending s !! rid) as [k|] eqn:Hk; [|by left].
    destruct k; cbn [throw fst]; try (by left).
    right; right; eexists _, rid; split; [exact Hk|reflexivity].
Qed.

Lemma store_rejected (slot : Slot) d w c (p : PromiseAll) :
  rejected (store slot d w c p) = rejected p.
Proof. by destruct slot. Qed.

Lemma store_other (slot slot' : Slot) d w c (p : PromiseAll) :
  slot ≠ slot' → stored slot' (store slot d w c p) = stored slot' p.
Proof. by destruct slot, slot'. Qed.

Lemma loadFailed_step (e : Event) (s : State) :
  loadFailed s → loadFailed (fst (step e s)).
Proof.
  unfold loadFailed. intros (Hr & He & Hl).
  destruct (step_load e s) as [(-> & -> & -> & _)|[H|H]]; [done|..].
  - destruct H as (slot & d & w & c & rid & _ & _ & ->).
    destruct (all_resolved_fields (store slot d w c (loads s)) (settle rid s))
      as (-> & -> & Hi & _).
    rewrite store_rejected in *. rewrite (Hi Hr). done.
  - destruct H as (slot & rid & _ & ->).
    unfold all_rejected. cbn. rewrite Hr. done.
Qed.

Lemma loadInv_step (e : Event) (s : State) :
  loadInv s → loadInv (fst (step e s)).
Proof.
  intros (Hf & Hd & Hp & Hu). split_and!.
  - intros Hr. destruct (rejected (loads s)) eqn:Hr0.
    { by apply loadFailed_step, Hf. }
    destruct (step_load e s) as [(E & _)|[H|H]]; [congruence|..].
    + destruct H as (slot & d & w & c & rid & _ & _ & E). rewrite E in Hr.
      destruct (all_resolved_fields (store slot d w c (loads s))
                  (settle rid s)) as (El & _).
      rewrite El, store_rejected in Hr. congruence.
    + destruct H as (slot & rid & _ & ->).
      by apply all_rejected_fields.
  - intros d0.
    destruct (step_load e s) as [(-> & _ & _ & ->)|[H|H]]; [apply Hd|..].
    + destruct H as (slot & d & w & c & rid & _ & Hst & ->).
      destruct (all_resolved_fields (store slot d w c (loads s))
                  (settle rid s)) as (-> & _ & _ & ->).
      rewrite store_rejected. cbn [settle loads showData].
      destruct (rejected (loads s)) eqn:Hr0.
      { intros Hs. destruct (Hd _ Hs) as (? & ? & E). by rewrite E in Hr0. }
      destruct (loads s) as [ld lw lc lr] eqn:El. cbn in Hr0. subst lr.
      destruct slot; cbn in *.
      all: repeat case_match; try (intros; simplify_eq; eauto; fail).
      all: intros Hs; destruct (Hd _ Hs) as (? & ? & ?); simplify_eq.
      all: by case_bool_decide; [|apply is_Some_None in H].
    + destruct H as (slot & rid & Hk & ->).
      destruct (all_rejected_fields (settle rid s)) as (Hr & -> & _).
      cbn [settle showData]. intros Hs. destruct (Hd _ Hs) as (w' & c' & E).
      apply Hp in Hk. rewrite E in Hk. by destruct slot.
  - intros rid slot Hk. pose proof (step_no_new_load _ _ _ _ Hk) as Hk0.
    pose proof (Hp _ _ Hk0) as Hs.
    destruct (step_load e s) as [(-> & _)|[H|H]]; [done|..].
    + destruct H as (slot' & d & w & c & rid' & Hk' & _ & E).
      rewrite E in Hk |- *.
      destruct (all_resolved_fields (store slot' d w c (loads s))
                  (settle rid' s)) as (-> & _).
      destruct (decide (slot' = slot)) as [->|Hne];
        [|by rewrite store_other].
      (* the promise of this load has just left the table *)
      assert (rid = rid') as -> by eauto.
      assert (pending (all_resolved (store slot d w c (loads s))
                         (settle rid' s)) = delete rid' (pending s)) as Ep.
      { unfold all_resolved. repeat case_match; try done.
        unfold loadShowData_resolved. by case_match. }
      rewrite Ep, lookup_delete_eq in Hk. done.
    + destruct H as (slot' & rid' & _ & ->).
      unfold all_rejected. cbn. by case_match.
  - intros rid rid' slot H1 H2. eauto using step_no_new_load.
Qed.

Lemma loadInv_mount (id : Z) : loadInv (fst (mount id)).
Proof.
  split_and!; cbn.
  - done.
  - done.
  - intros rid slot H.
    repeat (apply lookup_insert_Some in H as [[_ H]|[_ H]];
            [by simplify_eq|]).
    done.
  - intros rid rid' slot H1 H2.
    repeat (apply lookup_insert_Some in H1 as [[<- H1]|[_ H1]]);
      repeat (apply lookup_insert_Some in H2 as [[<- H2]|[_ H2]]);
      simplify_eq; done.
Qed.

Lemma loadInv_run (id : Z) (tr : list Event) :
  loadInv (fst (run tr (mount id))).
Proof.
  apply run_invariant; [apply loadInv_step|apply loadInv_mount].
Qed.

Lemma loadFailed_render (s : State) :
  loadFailed s → render s = ErrorView loadError.
Proof.
  intros (_ & He & Hl). unfold render. rewrite Hl, He.
  by destruct (showData s).
Qed.

(** C7: once the three loads have been answered, in whatever order, the
    page shows the detail view, and the selected season is the first one
    of the list returned; its episodes are the ones listed.  If the list
    of seasons is empty the page shows the detail view all the same, with
    no season selected, no season tab and no episode. *)
Theorem C7_first_season_is_default
    (id : Z) (d : ShowDetail) (w : WatchedEpisodesResponse)
    (c : CommentsResponse) (tr : list Event) :
  tr ∈ permutations (answers d w c) →
  let s := fst (run tr (mount id)) in
  render s = Detail (detailView s d)
  ∧ error s = None
  ∧ match sd_seasons d with
    | first :: _ =>
        selectedSeason s = Some (se_season first)
        ∧ dv_selectedSeason (detailView s d) = Some (se_season first)
        ∧ dv_episodes (detailView s d)
          = map (λ episode,
                   (episode,
                    bool_decide (ep_id episode ∈ watchedEpisodes s)))
              (se_episodes first)
    | [] =>
        selectedSeason s = None
        ∧ dv_selectedSeason (detailView s d) = None
        ∧ dv_seasons (detailView s d) = []
        ∧ dv_episodes (detailView s d) = []
    end.
Proof.
  intros Htr. cbn zeta. rewrite (mount_loaded id d w c tr Htr).
  split_and!; try done.
  unfold detailView, episodeList, currentSeason. cbn.
  destruct (sd_seasons d) as [|first rest] eqn:E; cbn; [done|].
  by rewrite bool_decide_true.
Qed.

Lemma C7_first_season_is_default_witness :
  let w := {| we_show_id := 456; we_episode_ids := [] |} in
  let c := {| cr_comments := [] |} in
  let tr := [ Resolved 2 (ofComments c); Resolved 0 (ofShowDetail Sample.announced);
              Resolved 1 (ofWatchedEpisodes w) ] in
  let s := fst (run tr (mount 456)) in
  tr ∈ permutations (answers Sample.announced w c)
  ∧ render s = Detail (detailView s Sample.announced)
  ∧ selectedSeason s = None
  ∧ dv_episodes (detailView s Sample.announced) = [].
Proof.
  assert (H : [ Resolved 2 (ofComments {| cr_comments := [] |});
                Resolved 0 (ofShowDetail Sample.announced);
                Resolved 1 (ofWatchedEpisodes
                              {| we_show_id := 456; we_episode_ids := [] |}) ]
              ∈ permutations (answers Sample.announced
                                {| we_show_id := 456; we_episode_ids := [] |}
                                {| cr_comments := [] |})).
  { cbn. rewrite !elem_of_cons. tauto. }
  split; [exact H|].
  pose proof (C7_first_season_is_default 456 _ _ _ _ H) as (T1 & _ & T2).
  split; [exact T1|]. cbn in T2. destruct T2 as (T2 & _ & _ & T3).
  split; [exact T2|exact T3].
Defined.

End Loading.

(** ** The episode modal *)

Section Modal.

Import ShowDetailPage.




End Modal.

(** ** Adding a comment *)

Section AddComment.

Import ShowDetailPage CommentsSection.

(** C4, as the specification states it, fails for the length: a draft of
    2001 letters that reaches [handleSubmit] is sent to the server as it
    is. *)
Lemma C4_overlong_comment_is_sent :
  let c := {| newComment := Sample.longDraft; isSubmitting := false |} in
  let '((c', p'), calls) :=
    handleSubmit handleAddShowComment (c, Sample.ready) in
  length (newComment c) = 2001
  ∧ calls = [(3, createComment {| cc_content := Sample.longDraft;
                                  cc_show_id := 123; cc_episode_id := None |})]
  ∧ isSubmitting c' = true
  ∧ pending p' !! 3 = Some handleAddShowComment_k.
Proof. vm_compute. done. Qed.

(** C4, amended: [handleSubmit] turns down, before any call and leaving
    the section and the page as they are, a draft that is empty once
    trimmed, and any draft while a submission is under way.  Any other
    draft is sent, trimmed, in one [createComment] call, whatever its
    length, and the lists of the page are not touched by the call.  The
    length is bounded only by the [maxLength] of the textarea on the
    draft: what is sent is never longer than the draft. *)
Theorem C4_blank_draft_rejected_length_not_checked
    (c : CommentsSection.State) (s : ShowDetailPage.State) :
  let content := trim (newComment c) in
  let sent := {| newComment := newComment c; isSubmitting := true |} in
  (if negb (truthy content) || isSubmitting c then
     handleSubmit handleAddShowComment (c, s) = ((c, s), [])
     ∧ handleSubmit handleAddEpisodeComment (c, s) = ((c, s), [])
   else
     handleSubmit handleAddShowComment (c, s)
     = ((sent, fst (handleAddShowComment content s)),
        [(next s, createComment {| cc_content := content;
                                   cc_show_id := showId s;
                                   cc_episode_id := None |})])
     ∧ showComments (fst (handleAddShowComment content s)) = showComments s
     ∧ handleSubmit handleAddEpisodeComment (c, s)
       = ((sent, fst (handleAddEpisodeComment content s)),
          match selectedEpisode s with
          | Some episode =>
              [(next s, createComment {| cc_content := content;
                                         cc_show_id := showId s;
                                         cc_episode_id := Some (ep_id episode) |})]
          | None => []
          end)
     ∧ episodeComments (fst (handleAddEpisodeComment content s))
       = episodeComments s)
  ∧ length content ≤ length (newComment c)
  ∧ (length (newComment c) ≤ maxLength → length content ≤ maxLength).
Proof.
  cbn zeta. split; [|split; [apply trim_length|]].
  - unfold handleSubmit. cbn [fst snd].
    destruct (negb (truthy (trim (newComment c))) || isSubmitting c); [done|].
    split_and!; try done.
    + unfold handleAddEpisodeComment. by destruct (selectedEpisode s).
    + unfold handleAddEpisodeComment. by destruct (selectedEpisode s).
  - pose proof (trim_length (newComment c)). lia.
Qed.

Lemma C4_blank_draft_rejected_length_not_checked_witness :
  let c := {| newComment := lit "  "; isSubmitting := false |} in
  handleSubmit handleAddShowComment (c, Sample.ready) = ((c, Sample.ready), [])
  ∧ length (trim (lit " who is Kate ")) ≤ maxLength.
Proof.
  split.
  - apply (C4_blank_draft_rejected_length_not_checked
             {| newComment := lit "  "; isSubmitting := false |} Sample.ready).
  - apply (C4_blank_draft_rejected_length_not_checked
             {| newComment := lit " who is Kate "; isSubmitting := false |}
             Sample.ready).
    unfold maxLength. simpl. lia.
Defined.

End AddComment.

(** ** Insight generation *)

Section Insight.

Import ShowDetailPage PageInv Ui InsightInv.

(** A new promise is made. *)
Lemma genInvOn_insert (pend : gmap nat Cont) (nxt : nat)
    (fl fl' : Scope → bool) (k : Cont) :
  genInvOn pend nxt fl →
  (∀ sc, fl' sc = if bool_decide (k = genCont sc) then true else fl sc) →
  (∀ sc, k = genCont sc → fl sc = false) →
  genInvOn (<[nxt := k]> pend) (S nxt) fl'.
Proof.
  intros [Hfresh Hsc] Hfl Hoff. split.
  - intros rid k' [[<- _]|[_ H]]%lookup_insert_Some; [lia|].
    apply Hfresh in H. lia.
  - intros sc. destruct (Hsc sc) as [Hiff Huniq]. rewrite Hfl. split.
    + case_bool_decide as Hk.
      * split; [|done]. intros _. exists nxt. by rewrite lookup_insert_eq, Hk.
      * rewrite Hiff. split; intros [rid H]; exists rid.
        -- rewrite lookup_insert_ne; [done|].
           intros <-. apply Hfresh in H. lia.
        -- apply lookup_insert_Some in H as [[_ ?]|[_ ?]]; done.
    + intros r1 r2 H1 H2.
      apply lookup_insert_Some in H1 as [[<- E1]|[_ H1]];
        apply lookup_insert_Some in H2 as [[<- E2]|[_ H2]]; try done.
      * pose proof (Hoff sc E1) as Hf.
        assert (fl sc = true) by (apply Hiff; eauto). congruence.
      * pose proof (Hoff sc E2) as Hf.
        assert (fl sc = true) by (apply Hiff; eauto). congruence.
      * eauto.
Qed.

(** A promise settles. *)
Lemma genInvOn_delete (pend : gmap nat Cont) (nxt : nat)
    (fl fl' : Scope → bool) (rid : nat) (k : Cont) :
  genInvOn pend nxt fl →
  pend !! rid = Some k →
  (∀ sc, fl' sc = if bool_decide (k = genCont sc) then false else fl sc) →
  genInvOn (delete rid pend) nxt fl'.
Proof.
  intros [Hfresh Hsc] Hk Hfl. split.
  - intros r k' [_ H]%lookup_delete_Some. eauto.
  - intros sc. destruct (Hsc sc) as [Hiff Huniq]. rewrite Hfl. split.
    + case_bool_decide as E.
      * split; [done|]. intros [r [Hne H]%lookup_delete_Some].
        subst k. destruct Hne. eauto.
      * rewrite Hiff. split; intros [r H]; exists r.
        -- apply lookup_delete_Some. split; [|done]. intros <-. congruence.
        -- by apply lookup_delete_Some in H as [_ ?].
    + intros r1 r2 [_ H1]%lookup_delete_Some [_ H2]%lookup_delete_Some.
      eauto.
Qed.

Lemma genInvOn_ext (pend : gmap nat Cont) (nxt : nat) (fl fl' : Scope → bool) :
  genInvOn pend nxt fl → (∀ sc, fl' sc = fl sc) → genInvOn pend nxt fl'.
Proof.
  intros [Hfresh Hsc] Hfl. split; [done|]. intros sc. rewrite Hfl. apply Hsc.
Qed.

(** The flags after a call that does not come from a panel. *)
Lemma call_flag (h : Handler) (s : ShowDetailPage.State) (sc : Scope) :
  viaPanel h = false →
  flag sc (fst (call h s)) = flag sc s
  ∧ contOf h s ≠ Some (genCont sc).
Proof.
  intros Hh. destruct h, sc; try done; cbn.
  all: unfold handleAddEpisodeComment; destruct (selectedEpisode s); done.
Qed.

Lemma resume_flag (k : Cont) (v : Payload) (s s' : ShowDetailPage.State)
    (sc : Scope) :
  resume k v s = Some s' →
  flag sc s' = if bool_decide (k = genCont sc) then false else flag sc s.
Proof.
  destruct k as [[]| | | | | | | |], v, sc; cbn; intros H; simplify_eq;
    try done.
  all: unfold all_resolved; cbn; repeat case_match; try done.
  all: unfold loadShowData_resolved; repeat case_match; done.
Qed.

Lemma throw_flag (k : Cont) (s : ShowDetailPage.State) (sc : Scope) :
  flag sc (throw k s)
  = if bool_decide (k = genCont sc) then false else flag sc s.
Proof.
  destruct k, sc; cbn; try done.
  all: unfold all_rejected; by case_match.
Qed.

Lemma genInv_call (h : Handler) (s : ShowDetailPage.State) :
  viaPanel h = false → genInv s → genInv (fst (call h s)).
Proof.
  intros Hh HI. unfold genInv.
  pose proof (call_pending h s) as Hp. cbn zeta in Hp.
  destruct (contOf h s) as [k|] eqn:Ek.
  - destruct Hp as (-> & -> & _).
    apply (genInvOn_insert _ _ (λ sc, flag sc s)); [done|..].
    + intros sc. destruct (call_flag h s sc Hh) as [-> Hne].
      rewrite bool_decide_false; [done|]. congruence.
    + intros sc ->. destruct (call_flag h s sc Hh) as [_ Hne]. congruence.
  - destruct Hp as (-> & -> & _).
    apply (genInvOn_ext _ _ (λ sc, flag sc s)); [done|].
    intros sc. by destruct (call_flag h s sc Hh).
Qed.

Lemma genInv_step_net (e : ShowDetailPage.Event) (s : ShowDetailPage.State) :
  match e with ShowDetailPage.Call _ => False | _ => True end →
  genInv s → genInv (fst (ShowDetailPage.step e s)).
Proof.
  intros He HI. destruct e as [h|rid v|rid]; [done|..];
    cbn [ShowDetailPage.step].
  - destruct (pending s !! rid) as [k|] eqn:Hk; [|done].
    destruct (resume k v (settle rid s)) as [s'|] eqn:Hr; [|done].
    cbn [fst]. unfold genInv.
    destruct (resume_pending _ _ _ _ Hr) as [-> ->]. cbn [settle pending next].
    apply (genInvOn_delete _ _ (λ sc, flag sc s) _ rid k); [done..|].
    intros sc. by rewrite (resume_flag _ _ _ _ sc Hr).
  - destruct (pending s !! rid) as [k|] eqn:Hk; [|done].
    cbn [fst]. unfold genInv.
    destruct (throw_pending k (settle rid s)) as [-> ->].
    cbn [settle pending next].
    apply (genInvOn_delete _ _ (λ sc, flag sc s) _ rid k); [done..|].
    intros sc. by rewrite throw_flag.
Qed.

(** When the page renders the panel of a scope. *)
Lemma panel_shown (sc : Scope) (u : Ui.State) :
  is_Some (panel sc u) ↔
  isLoading (page u) = false ∧ is_Some (showData (page u))
  ∧ isTruthy (error (page u)) = false
  ∧ match sc with
    | ofShow => True
    | ofEpisode => is_Some (selectedEpisode (page u))
    end.
Proof.
  unfold panel, render.
  destruct (isLoading (page u)); [split; [by intros []|by intros []]|].
  destruct (showData (page u)) as [d|];
    [|split; [by intros []|by intros (_ & [] & _)]].
  destruct (isTruthy (error (page u)));
    [split; [by intros []|by intros (_ & _ & ? & _)]|].
  destruct sc; cbn; [naive_solver|].
  unfold modal. destruct (selectedEpisode (page u)); cbn; [naive_solver|].
  split; [by intros []|by intros (_ & _ & _ & [])].
Qed.

(** When the button of a panel can be clicked: the panel is rendered,
    the flag is down, and either nothing was generated yet or an insight
    is stored. *)
Lemma canGenerate_spec (sc : Scope) (u : Ui.State) :
  canGenerate sc u = true ↔
  is_Some (panel sc u) ∧ flag sc (page u) = false
  ∧ (hasGenerated sc u = false ∨ is_Some (insightOf sc (page u))).
Proof.
  unfold canGenerate. rewrite panel_shown. unfold panel, render.
  destruct (isLoading (page u)); [naive_solver|].
  destruct (showData (page u)) as [d|]; [|split; [done|by intros ((_&[]&_)&_)]].
  destruct (isTruthy (error (page u))); [naive_solver|].
  unfold AIInsightPanel.render.
  destruct sc; cbn.
  - destruct (showPanel u), (showInsight (page u)),
      (isLoadingInsight (page u)); cbn; naive_solver.
  - unfold modal. destruct (selectedEpisode (page u)); cbn;
      [|split; [done|by intros ((_&_&_&[])&_)]].
    destruct (episodePanel u), (episodeInsight (page u)),
      (isLoadingEpisodeInsight (page u)); cbn; naive_solver.
Qed.

(** A button that can be clicked means that the flag is down. *)
Lemma canGenerate_flag (sc : Scope) (u : Ui.State) :
  canGenerate sc u = true →
  flag sc (page u) = false
  ∧ match sc with
    | ofShow => True
    | ofEpisode => is_Some (selectedEpisode (page u))
    end.
Proof.
  intros (Hp & Hf & _)%canGenerate_spec. apply panel_shown in Hp. tauto.
Qed.

(** While the flag is up there is no button to click. *)
Lemma flag_canGenerate (sc : Scope) (u : Ui.State) :
  flag sc (page u) = true → canGenerate sc u = false.
Proof.
  intros Hf. destruct (canGenerate sc u) eqn:Hc; [|done].
  apply canGenerate_flag in Hc as [? _]. congruence.
Qed.

Lemma genInv_click (sc : Scope) (u : Ui.State) :
  genInv (page u) → genInv (page (fst (clickGenerate sc u))).
Proof.
  intros HI. unfold clickGenerate.
  destruct (canGenerate sc u) eqn:Hc; [|done].
  apply canGenerate_flag in Hc as [Hf Hsel].
  destruct sc; cbn in *.
  - apply (genInvOn_insert _ _ (λ sc, flag sc (page u))); [done|..].
    + by intros [].
    + by intros [].
  - unfold handleGenerateEpisodeInsight.
    destruct Hsel as [ep ->]. cbn.
    apply (genInvOn_insert _ _ (λ sc, flag sc (page u))); [done|..].
    + by intros [].
    + by intros [].
Qed.

Lemma genInv_step (e : Ui.Event) (u : Ui.State) :
  genInv (page u) → genInv (page (fst (Ui.step e u))).
Proof.
  intros HI. destruct e as [sc|h|rid v|rid]; cbn [Ui.step].
  - by apply genInv_click.
  - destruct (viaPanel h) eqn:Hh; [done|]. cbn. by apply genInv_call.
  - cbn. by apply (genInv_step_net (ShowDetailPage.Resolved rid v)).
  - cbn. by apply (genInv_step_net (ShowDetailPage.Rejected rid)).
Qed.

Lemma genInv_mount (id : Z) : genInv (page (fst (Ui.mount id))).
Proof.
  split.
  - cbn. intros rid k H.
    repeat (apply lookup_insert_Some in H as [[<- _]|[_ H]]; [lia|]).
    done.
  - intros sc. split; [split|].
    + by destruct sc.
    + intros [rid H]. cbn in H.
      repeat (apply lookup_insert_Some in H as [[_ H]|[_ H]];
              [by destruct sc|]).
      done.
    + intros r1 r2 H _. cbn in H.
      repeat (apply lookup_insert_Some in H as [[_ H]|[_ H]];
              [by destruct sc|]).
      done.
Qed.

Lemma genInv_run (id : Z) (tr : list Ui.Event) :
  genInv (page (fst (Ui.run tr (Ui.mount id)))).
Proof.
  generalize (genInv_mount id). generalize (Ui.mount id).
  induction tr as [|e tr IH]; intros uc Huc; [done|].
  simpl. destruct (Ui.step e (fst uc)) as [u1 c1] eqn:E.
  apply IH. cbn. replace u1 with (fst (Ui.step e (fst uc))) by by rewrite E.
  by apply genInv_step.
Qed.

(** The handlers have no guard of their own: called again while the
    answer to its first call is still awaited (promise 3),
    [handleGenerateShowInsight] makes a second network call, and so does
    [handleGenerate] of the panel, which only forwards.  The page calls
    them from the button of the panel only. *)
Lemma second_handler_call_makes_second_request :
  let request := {| ir_show_id := 123; ir_episode_id := None;
                    ir_include_comments := Some true |} in
  let '(s1, calls1) := handleGenerateShowInsight Sample.ready in
  let '(s2, calls2) := handleGenerateShowInsight s1 in
  let '(_, calls3) :=
    AIInsightPanel.handleGenerate handleGenerateShowInsight (true, s1) in
  calls1 = [(3, generateInsight request)]
  ∧ pending s1 !! 3 = Some handleGenerateShowInsight_k
  ∧ calls2 = [(4, generateInsight request)]
  ∧ calls3 = [(4, generateInsight request)]
  ∧ pending s2 !! 3 = Some handleGenerateShowInsight_k
  ∧ pending s2 !! 4 = Some handleGenerateShowInsight_k.
Proof. vm_compute. done. Qed.

(** The guard is the button of the panel.  In every state the page with
    its panels can reach, and for either scope: the loading flag is up
    exactly while a generation is awaited, and at most one is; while one
    is awaited a click on the panel does nothing; when the panel offers
    its button, a click makes exactly one call and a click right after
    it does nothing; when the awaited call succeeds, its insight
    replaces the stored one whatever that was, the flag goes down, and
    the panel, if shown, offers its button again; when it fails, the
    stored insight is kept and the flag goes down. *)
Lemma one_generation_in_flight_through_the_panel
    (id : Z) (tr : list Ui.Event) (scope : Scope)
    (rid : nat) (i : AIInsight) :
  let u := fst (Ui.run tr (Ui.mount id)) in
  let p := page u in
  pending p !! rid = Some (genCont scope) →
  (* the handler of the show makes a call whenever it is called *)
  (∀ s, snd (handleGenerateShowInsight s)
        = [(next s, generateInsight {| ir_show_id := showId s;
                                       ir_episode_id := None;
                                       ir_include_comments := Some true |})])
  (* the flag tells whether a generation is awaited; at most one is *)
  ∧ (∀ tr0, let p0 := page (fst (Ui.run tr0 (Ui.mount id))) in
     (flag scope p0 = true ↔ ∃ r, pending p0 !! r = Some (genCont scope))
     ∧ (∀ r1 r2, pending p0 !! r1 = Some (genCont scope) →
                 pending p0 !! r2 = Some (genCont scope) → r1 = r2))
  (* when the button is there: one click, one call; a second click, none *)
  ∧ (∀ tr0, let u0 := fst (Ui.run tr0 (Ui.mount id)) in
     canGenerate scope u0 = true →
     let r := Ui.step (ClickGenerate scope) u0 in
     (∃ request, snd r = [(next (page u0), generateInsight request)])
     ∧ pending (page (fst r)) !! next (page u0) = Some (genCont scope)
     ∧ Ui.step (ClickGenerate scope) (fst r) = (fst r, []))
  (* a generation is awaited in [u]: a click does nothing *)
  ∧ Ui.step (ClickGenerate scope) u = (u, [])
  (* it succeeds *)
  ∧ (let u2 := fst (Ui.step (Ui.Resolved rid (ofInsight i)) u) in
     insightOf scope (page u2) = Some i
     ∧ flag scope (page u2) = false
     ∧ (is_Some (panel scope u) → canGenerate scope u2 = true))
  (* it fails *)
  ∧ (let u3 := fst (Ui.step (Ui.Rejected rid) u) in
     insightOf scope (page u3) = insightOf scope p
     ∧ flag scope (page u3) = false
     ∧ snd (Ui.step (Ui.Rejected rid) u) = []).
Proof.
  intros u p Hk. split_and!.
  - done.
  - intros tr0 p0. destruct (genInv_run id tr0) as [_ H]. apply (H scope).
  - intros tr0 u0 Hc r.
    assert (Hr : flag scope (page (fst r)) = true
                 ∧ (∃ request,
                      snd r = [(next (page u0), generateInsight request)])
                 ∧ pending (page (fst r)) !! next (page u0)
                   = Some (genCont scope)).
    { subst r. cbn [Ui.step]. unfold clickGenerate. rewrite Hc.
      apply canGenerate_flag in Hc as [_ Hsel]. destruct scope; cbn.
      - split_and!; eauto. apply lookup_insert_eq.
      - destruct Hsel as [ep Hep]. unfold handleGenerateEpisodeInsight.
        rewrite Hep. cbn. split_and!; eauto. apply lookup_insert_eq. }
    destruct Hr as (Hf & Hcalls & Hp). split_and!; try done.
    cbn [Ui.step]. unfold clickGenerate.
    by rewrite (flag_canGenerate _ _ Hf).
  - cbn [Ui.step]. unfold clickGenerate.
    rewrite flag_canGenerate; [done|].
    destruct (genInv_run id tr) as [_ H]. apply (H scope). eauto.
  - subst p. cbn [Ui.step withPage fst ShowDetailPage.step page].
    rewrite Hk. destruct scope; cbn [genCont resume fst page].
    all: split_and!; try done.
    all: intros Hs; apply canGenerate_spec.
    all: split_and!; [apply panel_shown; apply panel_shown in Hs; done
                     |done|by right].
  - subst p. cbn [Ui.step withPage fst snd ShowDetailPage.step page].
    rewrite Hk. by destruct scope.
Qed.

Lemma one_generation_in_flight_through_the_panel_at_sample :
  let u := fst (Ui.run Sample.generating (Ui.mount 123)) in
  pending (page u) !! 3 = Some (genCont ofShow)
  ∧ Ui.step (ClickGenerate ofShow) u = (u, [])
  ∧ insightOf ofShow
      (page (fst (Ui.step (Ui.Resolved 3 (ofInsight Sample.lostInsight)) u)))
    = Some Sample.lostInsight.
Proof.
  assert (H : pending (page (fst (Ui.run Sample.generating (Ui.mount 123))))
                !! 3 = Some (genCont ofShow)) by (vm_compute; reflexivity).
  split; [exact H|].
  pose proof (one_generation_in_flight_through_the_panel
                123 Sample.generating ofShow 3 Sample.lostInsight H)
    as (_ & _ & _ & T1 & (T2 & _) & _).
  split; [exact T1|exact T2].
Defined.

(** C3 at the failing input: a first generation that fails.  The button
    of the panel of the show is clicked on the page of show 123: one
    request is made (promise 3), and while it is awaited a further click
    does nothing, as the specification says.  The request then fails: the
    call has settled, nothing is awaited and the loading flag is down,
    but the panel, with [hasGenerated] set and no insight, renders
    nothing under its header, so there is no button and no generation
    can be asked for again.  Had the request succeeded, the panel would
    offer its button and a click would make the next request.  The
    panel of an episode is left in the same way when the first
    generation asked for in the modal fails. *)
Lemma C3_failed_first_generation_cannot_be_retried :
  let request := {| ir_show_id := 123; ir_episode_id := None;
                    ir_include_comments := Some true |} in
  let u := fst (Ui.run Sample.generating (Ui.mount 123)) in
  let failed := fst (Ui.step (Ui.Rejected 3) u) in
  let succeeded :=
    fst (Ui.step (Ui.Resolved 3 (ofInsight Sample.lostInsight)) u) in
  let inModal :=
    fst (Ui.run (take 3 Sample.generating
                 ++ [ Ui.Page (ViewEpisodeComments Sample.pilot);
                      Ui.Resolved 3
                        (ofComments {| cr_comments := [Sample.onPilot] |});
                      Ui.ClickGenerate ofEpisode;
                      Ui.Rejected 4 ])
           (Ui.mount 123)) in
  (* the first click: one request, and a second click does nothing *)
  (snd (Ui.run Sample.generating (Ui.mount 123))
   = [(0, getShowDetails 123); (1, getWatchedEpisodes 123);
      (2, getShowComments 123); (3, generateInsight request)]
   ∧ pending (page u) !! 3 = Some handleGenerateShowInsight_k
   ∧ Ui.step (ClickGenerate ofShow) u = (u, []))
  (* the request fails: settled, and no way to generate again *)
  ∧ (pending (page failed) = ∅
     ∧ isLoadingInsight (page failed) = false
     ∧ showInsight (page failed) = None
     ∧ panel ofShow failed = Some AIInsightPanel.Empty
     ∧ canGenerate ofShow failed = false
     ∧ Ui.step (ClickGenerate ofShow) failed = (failed, []))
  (* the request succeeds: the button is back *)
  ∧ (panel ofShow succeeded
     = Some (AIInsightPanel.Insight Sample.lostInsight false)
     ∧ canGenerate ofShow succeeded = true
     ∧ snd (Ui.step (ClickGenerate ofShow) succeeded)
       = [(4, generateInsight request)])
  (* the same in the modal of an episode *)
  ∧ (selectedEpisode (page inModal) = Some Sample.pilot
     ∧ pending (page inModal) = ∅
     ∧ isLoadingEpisodeInsight (page inModal) = false
     ∧ panel ofEpisode inModal = Some AIInsightPanel.Empty
     ∧ Ui.step (ClickGenerate ofEpisode) inModal = (inModal, [])).
Proof. vm_compute. split_and!; reflexivity. Qed.

End Insight.

(** ** The summary without its markup *)

Section SummaryFacts.

Import Summary.

Lemma existsb_gt (text : jsstring) :
  existsb (N.eqb greaterThan) text = true ↔ greaterThan ∈ text.
Proof.
  rewrite existsb_exists. split.
  - intros (c & Hin & ->%N.eqb_eq). by apply list_elem_of_In.
  - intros Hin. exists greaterThan. split; [by apply list_elem_of_In|].
    apply N.eqb_refl.
Qed.

(** Inside a tag nothing is kept up to the first [>]. *)
Lemma stripFrom_inTag_no_gt (text : jsstring) :
  greaterThan ∉ text → stripFrom true text = [].
Proof.
  induction text as [|c rest IH]; [done|]. intros Hn.
  apply not_elem_of_cons in Hn as [Hc Hr]. cbn.
  destruct (N.eqb_spec c greaterThan) as [->|_]; [done|]. by apply IH.
Qed.

(** A text without [>] is kept as it is. *)
Lemma stripFrom_no_gt (text : jsstring) :
  greaterThan ∉ text → stripFrom false text = text.
Proof.
  induction text as [|c rest IH]; [done|]. intros Hn.
  apply not_elem_of_cons in Hn as [Hc Hr]. cbn.
  assert (existsb (N.eqb greaterThan) rest = false) as ->.
  { apply not_true_is_false. by rewrite existsb_gt. }
  rewrite andb_false_r. f_equal. by apply IH.
Qed.

(** What is kept: a front without [<], then a back without [>]. *)
Lemma stripFrom_shape (inTag : bool) (text : jsstring) :
  ∃ front back,
    stripFrom inTag text = front ++ back
    ∧ (lessThan ∉ front) ∧ (greaterThan ∉ back).
Proof.
  revert inTag. induction text as [|c rest IH]; intros inTag.
  { exists [], []. split_and!; [done|apply not_elem_of_nil..]. }
  cbn. destruct inTag.
  - destruct (c =? greaterThan)%N; apply IH.
  - destruct (N.eqb_spec c lessThan) as [->|Hc]; cbn.
    + destruct (existsb (N.eqb greaterThan) rest) eqn:E; [apply IH|].
      assert (greaterThan ∉ rest) as Hr.
      { intros Hin%existsb_gt. congruence. }
      exists [], (lessThan :: stripFrom false rest).
      rewrite (stripFrom_no_gt _ Hr). split_and!; [done| |].
      * apply not_elem_of_nil.
      * apply not_elem_of_cons. split; [done|exact Hr].
    + destruct (IH false) as (front & back & E & Hf & Hb).
      exists (c :: front), back. rewrite E. split_and!; [done| |done].
      apply not_elem_of_cons. split; [congruence|done].
Qed.

Lemma stripFrom_front_back (front back : jsstring) :
  lessThan ∉ front → greaterThan ∉ back →
  stripFrom false (front ++ back) = front ++ back.
Proof.
  intros Hf Hb. induction front as [|c front IH]; cbn.
  { by apply stripFrom_no_gt. }
  apply not_elem_of_cons in Hf as [Hc Hf].
  destruct (N.eqb_spec c lessThan) as [->|_]; [done|]. cbn.
  f_equal. by apply IH.
Qed.

Lemma stripFrom_length (inTag : bool) (text : jsstring) :
  length (stripFrom inTag text) ≤ length text.
Proof.
  revert inTag. induction text as [|c rest IH]; intros inTag; [done|].
  cbn. pose proof (IH true). pose proof (IH false).
  repeat case_match; cbn; lia.
Qed.

(** What [stripTags] returns holds no tag any more: no [<] in it has a
    [>] after it, so stripping it again changes nothing; and it is never
    longer than the text. *)
Theorem stripTags_leaves_no_tag (text : jsstring) :
  tagFree (stripTags text)
  ∧ stripTags (stripTags text) = stripTags text
  ∧ length (stripTags text) ≤ length text.
Proof.
  unfold stripTags.
  destruct (stripFrom_shape false text) as (front & back & E & Hf & Hb).
  split_and!.
  - rewrite E. intros i j Hij Hi Hj.
    destruct (decide (i < length front)) as [Hlt|Hge].
    + rewrite lookup_app_l in Hi by done.
      apply Hf. by eapply list_elem_of_lookup_2.
    + rewrite lookup_app_r in Hj by lia.
      apply Hb. by eapply list_elem_of_lookup_2.
  - rewrite E. by apply stripFrom_front_back.
  - apply stripFrom_length.
Qed.

(** The first tag of a text is cut out whole: with no [<] in [before]
    and no [>] in [tag], the text [before <tag> after] gives [before]
    followed by what [after] gives.  A text without any [>] has no tag
    and is returned as it is. *)
Theorem stripTags_cuts_first_tag (before tag after plain : jsstring) :
  lessThan ∉ before → greaterThan ∉ tag → greaterThan ∉ plain →
  stripTags (before ++ lessThan :: tag ++ greaterThan :: after)
  = before ++ stripTags after
  ∧ stripTags plain = plain.
Proof.
  intros Hb Ht Hp. unfold stripTags. split; [|by apply stripFrom_no_gt].
  induction before as [|c before IH]; cbn.
  - assert (existsb (N.eqb greaterThan) (tag ++ greaterThan :: after) = true)
      as ->.
    { apply existsb_gt. set_solver. }
    cbn. clear Hb. induction tag as [|c tag IH]; cbn; [done|].
    apply not_elem_of_cons in Ht as [Hc Ht].
    destruct (N.eqb_spec c greaterThan) as [->|_]; [done|]. by apply IH.
  - apply not_elem_of_cons in Hb as [Hc Hb].
    destruct (N.eqb_spec c lessThan) as [->|_]; [done|]. cbn.
    f_equal. by apply IH.
Qed.

Lemma stripTags_cuts_first_tag_witness :
  stripTags (lit "A <b>plane</b> crash") = lit "A " ++ stripTags (lit "plane</b> crash")
  ∧ stripTags (lit "1 < 2") = lit "1 < 2".
Proof.
  apply (stripTags_cuts_first_tag (lit "A ") (lit "b") (lit "plane</b> crash")
           (lit "1 < 2")).
  - vm_compute. set_solver.
  - vm_compute. set_solver.
  - vm_compute. set_solver.
Defined.

End SummaryFacts.

(** ** The detail page: watched episodes and progress *)

Section WatchedFacts.

Import ShowDetailPage PageInv Progress.

Lemma step_Rejected_await (call : Request) (k : Cont) (s0 : State) (r : nat) :
  r = next s0 →
  step (Rejected r) (fst (await call k s0))
  = (throw k (settle r (fst (await call k s0))), []).
Proof. intros ->. apply step_Rejected. cbn. apply lookup_insert_eq. Qed.

(** Toggling an episode moves the progress count by exactly one, up if
    the episode was not watched and down if it was; if the request then
    fails the count is back where it was. *)
Theorem toggle_moves_progress_by_one (s : State) (episodeId : Z) :
  let s1 := fst (handleToggleWatched episodeId s) in
  (if bool_decide (episodeId ∈ watchedEpisodes s)
   then S (watchedCount s1) = watchedCount s
   else watchedCount s1 = S (watchedCount s))
  ∧ watchedCount (fst (step (Rejected (next s)) s1)) = watchedCount s.
Proof.
  unfold handleToggleWatched, watchedCount. cbn zeta. split.
  - cbn [await fst setWatchedEpisodes watchedEpisodes].
    case_bool_decide as Hw.
    + rewrite size_difference by set_solver. rewrite size_singleton.
      assert (size (watchedEpisodes s) ≠ 0); [|lia].
      intros Hz%size_empty_inv. set_solver.
    + rewrite size_union by set_solver. by rewrite size_singleton.
  - rewrite step_Rejected_await by done.
    cbn [await fst throw handleToggleWatched_rejected settle
         setWatchedEpisodes watchedEpisodes].
    f_equal. apply set_eq. intros e.
    case_bool_decide; destruct (decide (e = episodeId)); set_solver.
Qed.

(** Two toggles of the same episode in a row.  When nothing happens in
    between, or when the first request is answered by a success in
    between, the set of watched episodes is as it was before the first
    toggle, and the server is asked for the one change and then for its
    opposite.  When the first request is answered by a failure in
    between, the first toggle has been undone by then, so the second
    acts as a first one: the set ends as after a single toggle and the
    same request is made twice. *)
Theorem toggle_twice_restores (s : State) (episodeId : Z) (v : Payload) :
  let mark := markEpisodeWatched {| mw_episode_id := episodeId;
                                    mw_show_id := showId s |} in
  let unmark := unmarkEpisodeWatched (showId s) episodeId in
  let watched := bool_decide (episodeId ∈ watchedEpisodes s) in
  let r1 := handleToggleWatched episodeId s in
  let r2 := handleToggleWatched episodeId (fst r1) in
  let ok := step (Resolved (next s) v) (fst r1) in
  let r2ok := handleToggleWatched episodeId (fst ok) in
  let ko := step (Rejected (next s)) (fst r1) in
  let r2ko := handleToggleWatched episodeId (fst ko) in
  (watchedEpisodes (fst r2) = watchedEpisodes s
   ∧ snd r1 ++ snd r2
     = if watched then [(next s, unmark); (S (next s), mark)]
       else [(next s, mark); (S (next s), unmark)])
  ∧ (watchedEpisodes (fst r2ok) = watchedEpisodes s
     ∧ snd r1 ++ snd ok ++ snd r2ok
       = if watched then [(next s, unmark); (S (next s), mark)]
         else [(next s, mark); (S (next s), unmark)])
  ∧ (watchedEpisodes (fst ko) = watchedEpisodes s
     ∧ watchedEpisodes (fst r2ko) = watchedEpisodes (fst r1)
     ∧ (episodeId ∈ watchedEpisodes (fst r2ko)
        ↔ episodeId ∉ watchedEpisodes s)
     ∧ snd r1 ++ snd ko ++ snd r2ko
       = if watched then [(next s, unmark); (S (next s), unmark)]
         else [(next s, mark); (S (next s), mark)]).
Proof.
  cbn zeta.
  assert (pending (fst (handleToggleWatched episodeId s)) !! next s
          = Some (handleToggleWatched_k episodeId
                    (bool_decide (episodeId ∈ watchedEpisodes s)))) as Hp.
  { cbn. apply lookup_insert_eq. }
  unfold step. rewrite Hp. clear Hp.
  unfold handleToggleWatched. cbn.
  repeat case_bool_decide; split_and!; try done; try set_solver.
  all: try (apply set_eq; intros e; destruct (decide (e = episodeId));
            set_solver).
Qed.

(** Two toggles of the same episode both in flight, both failing: the
    episode ends with the membership captured by the call whose failure
    arrives last.  If the failure of the first call is the last to
    arrive the episode is as before the two calls; if that of the second
    call is the last, the episode is left flipped. *)
Theorem toggle_race_last_failure_wins (s : State) (episodeId : Z) :
  let s2 := fst (handleToggleWatched episodeId
                   (fst (handleToggleWatched episodeId s))) in
  let r1 := next s in
  let r2 := S (next s) in
  let firstLast := fst (run [Rejected r2; Rejected r1] (s2, [])) in
  let secondLast := fst (run [Rejected r1; Rejected r2] (s2, [])) in
  (episodeId ∈ watchedEpisodes firstLast ↔ episodeId ∈ watchedEpisodes s)
  ∧ (episodeId ∈ watchedEpisodes secondLast ↔ episodeId ∉ watchedEpisodes s)
  ∧ (∀ e, e ≠ episodeId →
       (e ∈ watchedEpisodes firstLast ↔ e ∈ watchedEpisodes s)
       ∧ (e ∈ watchedEpisodes secondLast ↔ e ∈ watchedEpisodes s)).
Proof.
  cbn zeta.
  set (s1 := fst (handleToggleWatched episodeId s)).
  set (s2 := fst (handleToggleWatched episodeId s1)).
  assert (pending s2 !! next s
          = Some (handleToggleWatched_k episodeId
                    (bool_decide (episodeId ∈ watchedEpisodes s)))) as H1.
  { subst s2 s1. cbn. rewrite lookup_insert_ne by lia.
    apply lookup_insert_eq. }
  assert (pending s2 !! S (next s)
          = Some (handleToggleWatched_k episodeId
                    (bool_decide (episodeId ∈ watchedEpisodes s1)))) as H2.
  { subst s2 s1. cbn. apply lookup_insert_eq. }
  assert (watchedEpisodes s2 = watchedEpisodes s) as HW.
  { subst s2 s1. cbn. apply set_eq. intros e.
    repeat case_bool_decide; destruct (decide (e = episodeId)); set_solver. }
  assert (bool_decide (episodeId ∈ watchedEpisodes s1)
          = negb (bool_decide (episodeId ∈ watchedEpisodes s))) as Hflip.
  { subst s1. cbn. repeat case_bool_decide; set_solver. }
  rewrite Hflip in H2. clear Hflip. clearbody s2. clear s1.
  cbn [run fst snd].
  rewrite (step_Rejected _ _ _ H1), (step_Rejected _ _ _ H2). cbn [fst].
  rewrite (step_Rejected _ (next s) (handleToggleWatched_k episodeId
             (bool_decide (episodeId ∈ watchedEpisodes s))));
    [|cbn; rewrite lookup_delete_ne by lia; exact H1].
  rewrite (step_Rejected _ (S (next s)) (handleToggleWatched_k episodeId
             (negb (bool_decide (episodeId ∈ watchedEpisodes s)))));
    [|cbn; rewrite lookup_delete_ne by lia; exact H2].
  cbn. rewrite HW.
  case_bool_decide; cbn; set_solver.
Qed.

End WatchedFacts.

(** ** The detail page: deleting comments, seasons *)

Section CommentFacts.

Import ShowDetailPage PageInv Progress.

(** Deleting a comment changes no list when it is called nor when the
    request fails; when the request succeeds, in whatever state [s'],
    exactly the comments with that identifier leave the list of the
    scope, the others stay in their order, and the other list is left
    alone. *)
Theorem delete_removes_by_id_on_confirmation
    (s s' : State) (commentId : Z) (rid : nat) (v : Payload) :
  pending s' !! rid = Some (handleDeleteShowComment_k commentId)
  ∨ pending s' !! rid = Some (handleDeleteEpisodeComment_k commentId) →
  (let r := handleDeleteShowComment commentId s in
   showComments (fst r) = showComments s
   ∧ episodeComments (fst r) = episodeComments s
   ∧ snd r = [(next s, deleteComment commentId)])
  ∧ (let r := handleDeleteEpisodeComment commentId s in
     showComments (fst r) = showComments s
     ∧ episodeComments (fst r) = episodeComments s
     ∧ snd r = [(next s, deleteComment commentId)])
  ∧ (let s2 := fst (step (Resolved rid v) s') in
     match pending s' !! rid with
     | Some (handleDeleteShowComment_k _) =>
         showComments s2
         = filter (λ c, c_id c ≠ commentId) (showComments s')
         ∧ Forall (λ c, c_id c ≠ commentId) (showComments s2)
         ∧ episodeComments s2 = episodeComments s'
     | _ =>
         episodeComments s2
         = filter (λ c, c_id c ≠ commentId) (episodeComments s')
         ∧ Forall (λ c, c_id c ≠ commentId) (episodeComments s2)
         ∧ showComments s2 = showComments s'
     end)
  ∧ (let s3 := fst (step (Rejected rid) s') in
     showComments s3 = showComments s'
     ∧ episodeComments s3 = episodeComments s').
Proof.
  intros Hk. split_and!; try done.
  - destruct Hk as [Hk|Hk]; cbn [step]; rewrite Hk; destruct v; cbn.
    all: split_and!; try done.
    all: apply Forall_forall; by intros x [? _]%list_elem_of_filter.
  - destruct Hk as [Hk|Hk]; cbn [step]; rewrite Hk; done.
Qed.

Lemma delete_removes_by_id_on_confirmation_witness :
  let s' := fst (handleDeleteShowComment 102 Sample.ready) in
  pending s' !! 3 = Some (handleDeleteShowComment_k 102)
  ∧ showComments s' = [Sample.onShow]
  ∧ showComments (fst (step (Resolved 3 ofVoid) s')) = [].
Proof.
  assert (H : pending (fst (handleDeleteShowComment 102 Sample.ready)) !! 3
              = Some (handleDeleteShowComment_k 102))
    by (vm_compute; reflexivity).
  split; [exact H|]. split; [vm_compute; reflexivity|].
  pose proof (delete_removes_by_id_on_confirmation Sample.ready _ 102 3
                ofVoid (or_introl H)) as (_ & _ & T & _).
  cbn zeta in T. rewrite H in T. destruct T as [T _]. rewrite T.
  vm_compute. reflexivity.
Defined.

(** A comment added and then deleted: if no comment of the list had the
    identifier the server gave to the new one, the list of the show is
    back to what it was when the creation was confirmed. *)
Theorem add_then_delete_restores
    (s : State) (rid : nat) (comment : Comment) (v : Payload) :
  pending s !! rid = Some handleAddShowComment_k →
  (∀ c, c ∈ showComments s → c_id c ≠ c_id comment) →
  let s1 := fst (step (Resolved rid (ofComment comment)) s) in
  let s2 := fst (handleDeleteShowComment (c_id comment) s1) in
  let s3 := fst (step (Resolved (next s) v) s2) in
  showComments s1 = comment :: showComments s
  ∧ showComments s2 = comment :: showComments s
  ∧ showComments s3 = showComments s.
Proof.
  intros Hk Hfresh. cbn zeta.
  assert (fst (step (Resolved rid (ofComment comment)) s)
          = handleAddShowComment_resolved comment (settle rid s)) as ->.
  { cbn [step]. by rewrite Hk. }
  set (s2 := fst (handleDeleteShowComment (c_id comment) _)).
  assert (pending s2 !! next s
          = Some (handleDeleteShowComment_k (c_id comment))) as H2.
  { subst s2. cbn. apply lookup_insert_eq. }
  split; [done|]. split; [done|].
  cbn [step]. rewrite H2.
  assert (∀ s0, resume (handleDeleteShowComment_k (c_id comment)) v s0
                = Some (handleDeleteShowComment_resolved (c_id comment) s0))
    as -> by (by destruct v).
  subst s2. cbn -[filter]. rewrite filter_cons.
  rewrite decide_False by (by intros ?).
  clear Hk H2. induction (showComments s) as [|c l IH]; [done|].
  rewrite filter_cons. rewrite decide_True by (apply Hfresh; left).
  f_equal. apply IH. intros c' Hc'. apply Hfresh. by right.
Qed.

Lemma add_then_delete_restores_witness :
  let s := fst (handleAddShowComment (lit "what a crash") Sample.ready) in
  pending s !! 3 = Some handleAddShowComment_k
  ∧ (∀ c, c ∈ showComments s → c_id c ≠ c_id Sample.onPilot)
  ∧ showComments
      (fst (step (Resolved (next s) ofVoid)
              (fst (handleDeleteShowComment (c_id Sample.onPilot)
                      (fst (step (Resolved 3 (ofComment Sample.onPilot)) s))))))
    = showComments s.
Proof.
  assert (H : pending (fst (handleAddShowComment (lit "what a crash")
                              Sample.ready)) !! 3
              = Some handleAddShowComment_k) by (vm_compute; reflexivity).
  assert (Hf : ∀ c, c ∈ showComments
                      (fst (handleAddShowComment (lit "what a crash")
                              Sample.ready)) →
                    c_id c ≠ c_id Sample.onPilot).
  { intros c Hc. vm_compute in Hc. apply list_elem_of_singleton in Hc.
    subst c. vm_compute. discriminate. }
  split; [exact H|]. split; [exact Hf|].
  apply (add_then_delete_restores _ 3 Sample.onPilot ofVoid H Hf).
Defined.

End CommentFacts.

(** ** The detail page: what is shown *)

Section ViewFacts.

Import ShowDetailPage PageInv Progress.

Lemma totalEpisodes_from (n : nat) (seasons : list SeasonEpisodes) :
  foldl (λ sum s, sum + length (se_episodes s)) n seasons
  = n + totalEpisodes seasons.
Proof.
  unfold totalEpisodes. revert n.
  induction seasons as [|se seasons IH]; intros n; cbn; [lia|].
  rewrite IH, (IH (length _)). lia.
Qed.

Lemma totalEpisodes_app (l1 l2 : list SeasonEpisodes) :
  totalEpisodes (l1 ++ l2) = totalEpisodes l1 + totalEpisodes l2.
Proof.
  unfold totalEpisodes at 1. rewrite foldl_app.
  by rewrite totalEpisodes_from.
Qed.

Lemma currentSeason_first (before after : list SeasonEpisodes)
    (se : SeasonEpisodes) :
  Forall (λ x, se_season x ≠ se_season se) before →
  currentSeason (before ++ se :: after) (Some (se_season se)) = Some se.
Proof.
  unfold currentSeason. induction 1 as [|x before Hx _ IH]; cbn.
  - by rewrite bool_decide_true.
  - rewrite bool_decide_false by congruence. exact IH.
Qed.

Lemma currentSeason_none (others : list SeasonEpisodes) (season : Z) :
  Forall (λ x, se_season x ≠ season) others →
  currentSeason others (Some season) = None.
Proof.
  unfold currentSeason. induction 1 as [|x others Hx _ IH]; cbn; [done|].
  rewrite bool_decide_false by congruence. exact IH.
Qed.

(** Choosing a season is local: it makes no call and leaves the table of
    promises alone.  The episodes then listed are those of the first
    season of the list that bears the chosen number, each with its
    watched mark, and they are never more than the total the progress bar
    counts; for a list in which no season bears that number, no episode
    is listed. *)
Theorem select_season_is_local
    (s : State) (before after others : list SeasonEpisodes)
    (se : SeasonEpisodes) :
  Forall (λ x, se_season x ≠ se_season se) before →
  Forall (λ x, se_season x ≠ se_season se) others →
  let r := step (Call (SelectSeason (se_season se))) s in
  snd r = [] ∧ pending (fst r) = pending s
  ∧ watchedEpisodes (fst r) = watchedEpisodes s
  ∧ episodeList (fst r) (before ++ se :: after)
    = map (λ episode,
             (episode, bool_decide (ep_id episode ∈ watchedEpisodes s)))
        (se_episodes se)
  ∧ length (episodeList (fst r) (before ++ se :: after))
    ≤ totalEpisodes (before ++ se :: after)
  ∧ episodeList (fst r) others = [].
Proof.
  intros Hb Ho. cbn. unfold episodeList. cbn.
  rewrite (currentSeason_first _ _ _ Hb), (currentSeason_none _ _ Ho).
  split_and!; try done.
  rewrite length_map, totalEpisodes_app. unfold totalEpisodes at 2. cbn.
  rewrite totalEpisodes_from. lia.
Qed.

Lemma select_season_is_local_witness :
  let finale : Episode :=
    {| ep_id := 20; ep_show_id := 123; ep_name := lit "Exodus";
       ep_season := 2; ep_number := 1 |} in
  let second := {| se_season := 2; se_episodes := [finale] |} in
  let first := {| se_season := 1;
                  se_episodes := [Sample.pilot; Sample.tabulaRasa] |} in
  Forall (λ x, se_season x ≠ se_season second) [first]
  ∧ episodeList (fst (step (Call (SelectSeason 2)) Sample.ready))
      ([first] ++ second :: [])
    = [(finale, false)].
Proof.
  assert (H : Forall (λ x, se_season x ≠ 2%Z)
                [ {| se_season := 1;
                     se_episodes := [Sample.pilot; Sample.tabulaRasa] |} ]).
  { repeat constructor. cbn. discriminate. }
  split; [exact H|].
  pose proof (select_season_is_local Sample.ready _ []
                [ {| se_season := 1;
                     se_episodes := [Sample.pilot; Sample.tabulaRasa] |} ]
                {| se_season := 2;
                   se_episodes :=
                     [ {| ep_id := 20; ep_show_id := 123;
                          ep_name := lit "Exodus";
                          ep_season := 2; ep_number := 1 |} ] |} H H)
    as (_ & _ & _ & T & _).
  cbn zeta in T. cbn [se_season] in T. rewrite T.
  vm_compute. reflexivity.
Defined.

(** Once the three loads are answered, in whatever order, the comments
    of the show are the ones the server sent, in its order; an episode is
    watched exactly if the server listed it, and the progress counts each
    listed episode once. *)
Theorem loaded_state_mirrors_server
    (id : Z) (d : ShowDetail) (w : WatchedEpisodesResponse)
    (c : CommentsResponse) (tr : list Event) :
  tr ∈ permutations (answers d w c) →
  let s := fst (run tr (mount id)) in
  showComments s = cr_comments c
  ∧ (∀ e, e ∈ watchedEpisodes s ↔ e ∈ we_episode_ids w)
  ∧ watchedCount s = length (remove_dups (we_episode_ids w))
  ∧ showInsight s = None ∧ selectedEpisode s = None
  ∧ pending s = ∅.
Proof.
  intros Htr. cbn zeta. rewrite (mount_loaded id d w c tr Htr).
  split_and!; try done.
  - intros e. cbn. apply elem_of_list_to_set.
  - unfold watchedCount. cbn.
    replace (list_to_set (we_episode_ids w) : gset Z)
      with (list_to_set (remove_dups (we_episode_ids w)) : gset Z).
    + apply size_list_to_set, NoDup_remove_dups.
    + apply set_eq. intros e.
      by rewrite !elem_of_list_to_set, elem_of_remove_dups.
Qed.

Lemma loaded_state_mirrors_server_witness :
  let w := {| we_show_id := 123; we_episode_ids := [10; 11; 10]%Z |} in
  let c := {| cr_comments := [Sample.onShow] |} in
  let tr := [ Resolved 1 (ofWatchedEpisodes w); Resolved 2 (ofComments c);
              Resolved 0 (ofShowDetail Sample.lostDetail) ] in
  tr ∈ permutations (answers Sample.lostDetail w c)
  ∧ watchedCount (fst (run tr (mount 123))) = 2.
Proof.
  assert (H : [ Resolved 1 (ofWatchedEpisodes
                              {| we_show_id := 123;
                                 we_episode_ids := [10; 11; 10]%Z |});
                Resolved 2 (ofComments {| cr_comments := [Sample.onShow] |});
                Resolved 0 (ofShowDetail Sample.lostDetail) ]
              ∈ permutations (answers Sample.lostDetail
                                {| we_show_id := 123;
                                   we_episode_ids := [10; 11; 10]%Z |}
                                {| cr_comments := [Sample.onShow] |})).
  { cbn. rewrite !elem_of_cons. tauto. }
  split; [exact H|].
  pose proof (loaded_state_mirrors_server 123 _ _ _ _ H) as (_ & _ & T & _).
  cbn zeta in T. rewrite T. vm_compute. reflexivity.
Defined.

(** The detail view, once shown, stays: in a state that shows it no load
    is awaited any more, and no other step writes the variables its
    guards read. *)
Lemma ready_step (e : Event) (s : State) (d : ShowDetail) :
  loadInv s →
  showData s = Some d ∧ isLoading s = false ∧ isTruthy (error s) = false →
  let s' := fst (step e s) in
  showData s' = Some d ∧ isLoading s' = false ∧ isTruthy (error s') = false.
Proof.
  intros (_ & Hd & Hp & _) (Hs & Hl & He). cbn zeta.
  destruct (Hd _ Hs) as (w & c & El).
  destruct (step_load e s) as [(_ & -> & -> & ->)|[H|H]]; [done|..].
  - destruct H as (slot & ? & ? & ? & rid & Hk & _).
    apply Hp in Hk. rewrite El in Hk. by destruct slot.
  - destruct H as (slot & rid & Hk & _).
    apply Hp in Hk. rewrite El in Hk. by destruct slot.
Qed.

(** Once the page shows the detail view it shows it for good: whatever
    is called and whatever succeeds or fails afterwards, the page keeps
    showing the detail view of the same show with the same seasons. *)
Theorem detail_view_is_stable
    (id : Z) (tr tr' : list Event) (v : DetailView) :
  let s := fst (run tr (mount id)) in
  render s = Detail v →
  ∃ v', render (fst (run tr' (s, []))) = Detail v'
        ∧ dv_show v' = dv_show v ∧ dv_seasons v' = dv_seasons v.
Proof.
  intros s Hv.
  assert (∃ d, v = detailView s d
               ∧ showData s = Some d ∧ isLoading s = false
               ∧ isTruthy (error s) = false) as (d & -> & Hr).
  { unfold render in Hv.
    destruct (isLoading s); [done|].
    destruct (showData s) as [d|]; [|done].
    destruct (isTruthy (error s)); [done|].
    exists d. by injection Hv as <-. }
  set (I := λ s0, loadInv s0
                  ∧ showData s0 = Some d ∧ isLoading s0 = false
                  ∧ isTruthy (error s0) = false).
  assert (I (fst (run tr' (s, [])))) as (_ & Hs & Hl & He).
  { apply run_invariant.
    - intros e s0 [Hi Hr0]. split; [by apply loadInv_step|].
      by apply ready_step.
    - split; [apply loadInv_run|exact Hr]. }
  exists (detailView (fst (run tr' (s, []))) d).
  unfold render. by rewrite Hl, Hs, He.
Qed.

Lemma detail_view_is_stable_witness :
  let s := fst (run Sample.loaded (mount 123)) in
  render s = Detail (detailView s Sample.lostDetail)
  ∧ ∃ v', render (fst (run Sample.lateLoad (s, []))) = Detail v'
          ∧ dv_show v' = sr_show Sample.lost.
Proof.
  assert (H : render (fst (run Sample.loaded (mount 123)))
              = Detail (detailView (fst (run Sample.loaded (mount 123)))
                          Sample.lostDetail))
    by (vm_compute; reflexivity).
  split; [exact H|].
  destruct (detail_view_is_stable 123 Sample.loaded Sample.lateLoad _ H)
    as (v' & Hv & Hshow & _).
  exists v'. split; [exact Hv|exact Hshow].
Defined.

Lemma all_resolved_isLoading (p : PromiseAll) (s : State) :
  isLoading (all_resolved p s)
  = if rejected p then isLoading s
    else if allStored p then false else isLoading s.
Proof.
  unfold all_resolved, allStored, stored.
  destruct (rejected p); [done|].
  destruct (details p), (watched p), (comments p); cbn; try done.
  all: unfold loadShowData_resolved; by case_match.
Qed.

Lemma store_allStored (slot : Slot) d w c (p : PromiseAll) :
  allStored p = true → stored slot (store slot d w c p) = true →
  allStored (store slot d w c p) = true.
Proof.
  unfold allStored. intros H Hs.
  destruct slot; cbn in *; repeat case_bool_decide; naive_solver.
Qed.

Lemma spinnerInv_step (e : Event) (s : State) :
  spinnerInv s → spinnerInv (fst (step e s)).
Proof.
  intros [H1 H2].
  destruct (step_load e s) as [(E1 & _ & E2 & _)|[H|H]].
  - unfold spinnerInv. by rewrite E1, E2.
  - destruct H as (slot & d & w & c & rid & _ & Hst & ->).
    pose proof (all_resolved_isLoading (store slot d w c (loads s))
                  (settle rid s)) as El.
    destruct (all_resolved_fields (store slot d w c (loads s)) (settle rid s))
      as (Ep & _).
    unfold spinnerInv. rewrite Ep, El, store_rejected. cbn [settle isLoading].
    destruct (rejected (loads s)) eqn:Hr; [by split; [left|]|].
    destruct (allStored (store slot d w c (loads s))) eqn:Ha;
      [by split; [right|]|].
    split; [|done]. intros Hl. destruct (H1 Hl) as [?|Hold]; [done|].
    rewrite (store_allStored _ _ _ _ _ Hold Hst) in Ha. done.
  - destruct H as (slot & rid & _ & ->).
    destruct (all_rejected_fields (settle rid s)) as (Hr & _).
    split; [by left|]. intros _ ?. congruence.
Qed.

(** The page shows the spinner exactly as long as [Promise.all] has
    neither its three values nor a rejection. *)
Theorem spinner_until_settled (id : Z) (tr : list Event) :
  let s := fst (run tr (mount id)) in
  render s = Spinner
  ↔ rejected (loads s) = false ∧ allStored (loads s) = false.
Proof.
  intros s.
  assert (spinnerInv s) as [H1 H2].
  { apply run_invariant; [apply spinnerInv_step|]. by split. }
  destruct (loadInv_run id tr) as (Hf & _). fold s in Hf.
  assert (render s = Spinner ↔ isLoading s = true) as ->.
  { unfold render. destruct (isLoading s); [done|].
    destruct (showData s); [|done]. by destruct (isTruthy (error s)). }
  split.
  - intros Hl. destruct (rejected (loads s)) eqn:Hr.
    + destruct (Hf eq_refl) as (_ & _ & ?). congruence.
    + split; [done|]. destruct (allStored (loads s)) eqn:Ha; [|done].
      rewrite H2 in Hl; done.
  - intros [Hr Ha]. destruct (isLoading s) eqn:Hl; [done|].
    destruct (H1 eq_refl); congruence.
Qed.

End ViewFacts.

(** ** The search page behind its search bar *)

Section SearchFacts.

Import SearchPage SearchView.

Lemma trimStart_head (s : jsstring) :
  match trimStart s with
  | [] => True
  | c :: _ => isWhiteSpace c = false
  end.
Proof.
  induction s as [|c s IH]; [done|]. cbn.
  destruct (isWhiteSpace c) eqn:E; [exact IH|exact E].
Qed.

Lemma trimStart_fixed (s : jsstring) :
  match s with [] => True | c :: _ => isWhiteSpace c = false end →
  trimStart s = s.
Proof. destruct s as [|c s]; [done|]. cbn. by intros ->. Qed.

Lemma trimStart_snoc (s : jsstring) (c : N) :
  isWhiteSpace c = false → ∃ s', trimStart (s ++ [c]) = s' ++ [c].
Proof.
  intros Hc. induction s as [|x s IH]; cbn.
  - rewrite Hc. by exists [].
  - destruct (isWhiteSpace x); [exact IH|]. by exists (x :: s).
Qed.

(** Trimming the end leaves a first code unit that is no white space
    where it is. *)
Lemma trimEnd_head (s : jsstring) :
  match s with [] => True | c :: _ => isWhiteSpace c = false end →
  match trimEnd s with [] => True | c :: _ => isWhiteSpace c = false end.
Proof.
  destruct s as [|c s]; [done|]. intros Hc. unfold trimEnd. cbn [rev].
  destruct (trimStart_snoc (rev s) c Hc) as (s' & ->).
  by rewrite rev_app_distr.
Qed.

Lemma trimEnd_idem (s : jsstring) : trimEnd (trimEnd s) = trimEnd s.
Proof.
  unfold trimEnd. rewrite rev_involutive. f_equal.
  apply trimStart_fixed, trimStart_head.
Qed.

Lemma trim_idem (s : jsstring) : trim (trim s) = trim s.
Proof.
  unfold trim.
  rewrite (trimStart_fixed (trimEnd (trimStart s))).
  - apply trimEnd_idem.
  - apply trimEnd_head, trimStart_head.
Qed.

(** A trimmed text neither begins nor ends with white space. *)
Lemma trim_ends (s : jsstring) :
  match trim s with [] => True | c :: _ => isWhiteSpace c = false end
  ∧ match rev (trim s) with [] => True | c :: _ => isWhiteSpace c = false end.
Proof.
  split.
  - apply trimEnd_head, trimStart_head.
  - unfold trim, trimEnd. rewrite rev_involutive. apply trimStart_head.
Qed.

Lemma queriesOf_cons (e : SearchUi.Event) (tr : list SearchUi.Event) :
  queriesOf (e :: tr)
  = match e with
    | SearchUi.Debounced q =>
        if truthy (trim q) then trim q :: queriesOf tr else queriesOf tr
    | _ => queriesOf tr
    end.
Proof.
  destruct e as [q| |]; cbn; try done. by destruct (truthy (trim q)).
Qed.

(** The calls of a run from any state. *)
Lemma bar_calls_from (tr : list SearchUi.Event) (s : State) (cs : Calls) :
  snd (SearchUi.run tr (s, cs))
  = cs ++ imap (λ i q, (next s + i, searchShows q)) (queriesOf tr)
  ∧ next (fst (SearchUi.run tr (s, cs))) = next s + length (queriesOf tr).
Proof.
  revert s cs. induction tr as [|e tr IH]; intros s cs.
  { cbn. by rewrite app_nil_r, Nat.add_0_r. }
  rewrite queriesOf_cons. cbn [SearchUi.run fst snd].
  destruct e as [q|rid response|rid]; cbn [SearchUi.step].
  - unfold SearchBar.effect. destruct (truthy (trim q)) eqn:Hq.
    + unfold handleSearch. rewrite trim_idem, Hq. cbn [negb].
      destruct (IH {| results := results s; isLoading := true;
                      hasSearched := true; error := None;
                      pending := <[next s := trim q]> (pending s);
                      next := S (next s) |}
                  (cs ++ [(next s, searchShows (trim q))])) as [-> ->].
      cbn [next imap length]. rewrite <- app_assoc. cbn [app].
      split; [|lia]. f_equal. f_equal.
      * f_equal. lia.
      * apply imap_ext. intros i x _. cbn. f_equal. lia.
    + destruct (IH s (cs ++ [])) as [-> ->]. by rewrite app_nil_r.
  - cbn [step]. destruct (pending s !! rid);
      [destruct (IH (handleSearch_resolved response (settle rid s)) (cs ++ []))
         as [-> ->]
      |destruct (IH s (cs ++ [])) as [-> ->]];
      by rewrite app_nil_r.
  - cbn [step]. destruct (pending s !! rid);
      [destruct (IH (handleSearch_rejected (settle rid s)) (cs ++ []))
         as [-> ->]
      |destruct (IH s (cs ++ [])) as [-> ->]];
      by rewrite app_nil_r.
Qed.

(** The network sees one search request for each debounced value that is
    not blank, in their order and nothing else: no answer and no failure
    ever makes a request.  The query of a request is the value trimmed;
    it is not empty and neither begins nor ends with white space. *)
Theorem bar_requests_are_the_trimmed_values (tr : list SearchUi.Event) :
  snd (SearchUi.run tr (init, []))
  = imap (λ i q, (i, searchShows q)) (queriesOf tr)
  ∧ Forall (λ q, q ≠ [] ∧ trim q = q
                 ∧ (∀ c, head q = Some c ∨ last q = Some c →
                         isWhiteSpace c = false))
      (queriesOf tr).
Proof.
  split; [by destruct (bar_calls_from tr init []) as [-> _]|].
  induction tr as [|e tr IH]; [constructor|].
  rewrite queriesOf_cons. destruct e as [q| |]; try done.
  destruct (truthy (trim q)) eqn:Hq; [|done].
  constructor; [|done]. split_and!.
  - intros E. by rewrite E in Hq.
  - apply trim_idem.
  - destruct (trim_ends q) as [Hh Hl]. intros c [Hc|Hc].
    + destruct (trim q); [done|]. by injection Hc as <-.
    + rewrite <- (rev_involutive (trim q)) in Hc.
      destruct (rev (trim q)) as [|x l]; [done|].
      cbn [rev] in Hc. rewrite last_snoc in Hc. by injection Hc as <-.
Qed.

Lemma barInv_step (e : SearchUi.Event) (s : State) :
  barInv s → barInv (fst (SearchUi.step e s)).
Proof.
  intros (H1 & H2 & H3). destruct e as [q|rid response|rid]; cbn.
  - unfold SearchBar.effect. destruct (truthy (trim q)) eqn:Hq; [|done].
    unfold handleSearch. rewrite trim_idem, Hq. cbn. split_and!; [done| |by left].
    intros _ E.
    pose proof (lookup_insert_eq (pending s) (next s) (trim q)) as H.
    cbn in E. rewrite E, lookup_empty in H. done.
  - destruct (pending s !! rid) as [q|] eqn:Hk; [|done]. cbn. split_and!.
    + intros Hs. rewrite (H1 Hs) in Hk. cbn in Hk.
      by rewrite lookup_empty in Hk.
    + done.
    + done.
  - destruct (pending s !! rid) as [q|] eqn:Hk; [|done]. cbn. split_and!.
    + intros Hs. rewrite (H1 Hs) in Hk. cbn in Hk.
      by rewrite lookup_empty in Hk.
    + done.
    + by right.
Qed.

Lemma barInv_run (tr : list SearchUi.Event) (sc : State * Calls) :
  barInv (fst sc) → barInv (fst (SearchUi.run tr sc)).
Proof.
  revert sc. induction tr as [|e tr IH]; intros sc Hsc; [done|].
  cbn [SearchUi.run]. destruct (SearchUi.step e (fst sc)) as [s1 c1] eqn:E.
  apply IH. cbn. replace s1 with (fst (SearchUi.step e (fst sc)))
    by (by rewrite E).
  by apply barInv_step.
Qed.

(** Behind its search bar the page never shows the welcome block
    together with anything else: as long as it shows it, the page is as
    it was at the start, with no result, no error, no spinner and nothing
    awaited; once a search has been made the welcome block is gone for
    good.  The spinner turns only while an answer is awaited. *)
Theorem welcome_block_stands_alone (tr tr' : list SearchUi.Event) :
  let s := fst (SearchUi.run tr (init, [])) in
  let s' := fst (SearchUi.run tr' (s, [])) in
  (if welcome (render s)
   then s = init
        ∧ render s = {| errorShown := None; noShowsFound := false;
                        grid := []; welcome := true |}
        ∧ queriesOf tr = []
   else welcome (render s') = false)
  ∧ (if isLoading s then pending s ≠ ∅ else True).
Proof.
  intros s s'.
  assert (barInv s) as (H1 & H2 & _).
  { apply barInv_run. split_and!; [done|done|by left]. }
  split; [|destruct (isLoading s); [by apply H2|done]].
  unfold render at 1. cbn [welcome].
  destruct (hasSearched s) eqn:Hs; cbn [negb].
  - (* the flag is never taken back behind the bar *)
    subst s'. clearbody s. clear H1 H2. revert s Hs.
    induction tr' as [|e tr' IH]; intros s Hs; cbn; [by rewrite Hs|].
    destruct (SearchUi.step e s) as [s1 c1] eqn:E. cbn.
    assert (hasSearched s1 = true) as Hs1.
    { replace s1 with (fst (SearchUi.step e s)) by (by rewrite E).
      destruct e as [q|rid response|rid]; cbn.
      - unfold SearchBar.effect. destruct (truthy (trim q)) eqn:Hq; [|done].
        unfold handleSearch. by rewrite trim_idem, Hq.
      - by destruct (pending s !! rid).
      - by destruct (pending s !! rid). }
    specialize (IH s1 Hs1).
    assert (∀ c c', fst (SearchUi.run tr' (s1, c))
                    = fst (SearchUi.run tr' (s1, c'))) as Hc.
    { clear. revert s1. induction tr' as [|e tr' IH]; intros s1 c c'; [done|].
      cbn. destruct (SearchUi.step e s1). apply IH. }
    by rewrite (Hc _ []).
  - rewrite (H1 eq_refl). split_and!; [done|done|].
    destruct (bar_calls_from tr init []) as [_ Hn]. fold s in Hn.
    rewrite (H1 eq_refl) in Hn. cbn in Hn.
    destruct (queriesOf tr); [done|]. cbn in Hn. lia.
Qed.

End SearchFacts.

(** ** The comment form of the show *)

Section FormFacts.

Import ShowDetailPage PageInv CommentsUi.

Lemma contOf_not_add (h : Handler) (s : ShowDetailPage.State) :
  viaSection h = false → contOf h s ≠ Some handleAddShowComment_k.
Proof. destruct h; cbn; try done; by destruct (selectedEpisode s). Qed.

Lemma addInv_page_call (h : Handler) (u : CommentsUi.State) :
  viaSection h = false → addInv u →
  addInv {| page := fst (call h (page u)); section := section u |}.
Proof.
  intros Hh (Hfresh & Hiff & Huniq). unfold addInv. cbn [page section].
  pose proof (call_pending h (page u)) as Hp. cbn zeta in Hp.
  pose proof (contOf_not_add h (page u) Hh) as Hne.
  destruct (contOf h (page u)) as [k|].
  - destruct Hp as (-> & -> & _). split_and!.
    + intros rid k' [[<- _]|[_ H]]%lookup_insert_Some; [lia|].
      apply Hfresh in H. lia.
    + rewrite Hiff. split; intros [rid H]; exists rid.
      * rewrite lookup_insert_ne; [done|]. intros <-.
        apply Hfresh in H. lia.
      * apply lookup_insert_Some in H as [[_ ->]|[_ H]]; [congruence|done].
    + intros r1 r2 [[_ ->]|[_ H1]]%lookup_insert_Some; [congruence|].
      intros [[_ ->]|[_ H2]]%lookup_insert_Some; [congruence|]. eauto.
  - by destruct Hp as (-> & -> & _).
Qed.

Lemma addInv_settle (u : CommentsUi.State) (rid : nat) (k : Cont)
    (p' : ShowDetailPage.State) (c' : CommentsSection.State) :
  addInv u → pending (page u) !! rid = Some k →
  pending p' = delete rid (pending (page u)) → next p' = next (page u) →
  CommentsSection.isSubmitting c'
  = (if isAdd (Some k) then false
     else CommentsSection.isSubmitting (section u)) →
  addInv {| page := p'; section := c' |}.
Proof.
  intros (Hfresh & Hiff & Huniq) Hk Hp Hn Hc. unfold addInv.
  cbn [page section]. rewrite Hp, Hn, Hc. split_and!.
  - intros r k' [_ H]%lookup_delete_Some. eauto.
  - destruct (decide (k = handleAddShowComment_k)) as [->|Hne].
    + cbn. split; [done|]. intros [r [Hr H]%lookup_delete_Some].
      destruct Hr. eauto.
    + replace (isAdd (Some k)) with false by (by destruct k).
      rewrite Hiff. split; intros [r H]; exists r.
      * apply lookup_delete_Some. split; [|done]. intros <-. congruence.
      * by apply lookup_delete_Some in H as [_ ?].
  - intros r1 r2 [_ H1]%lookup_delete_Some [_ H2]%lookup_delete_Some. eauto.
Qed.

Lemma addInv_step (e : CommentsUi.Event) (u : CommentsUi.State) :
  addInv u → addInv (fst (CommentsUi.step e u)).
Proof.
  intros HI. destruct e as [value| |h|rid v|rid]; cbn [CommentsUi.step].
  - by destruct (mounted u).
  - destruct (mounted u); [|done]. cbn [fst snd].
    unfold CommentsSection.handleSubmit. cbn [fst snd].
    destruct (negb (truthy (trim (CommentsSection.newComment (section u)))))
      eqn:Hb; cbn [orb]; [by destruct u|].
    destruct (CommentsSection.isSubmitting (section u)) eqn:Hs;
      [by destruct u|].
    destruct HI as (Hfresh & Hiff & Huniq). unfold addInv. cbn. split_and!.
    + intros rid k [[<- _]|[_ H]]%lookup_insert_Some; [lia|].
      apply Hfresh in H. lia.
    + split; [|done]. intros _. eexists. apply lookup_insert_eq.
    + assert (∀ r, pending (page u) !! r ≠ Some handleAddShowComment_k)
        as Hnone.
      { intros r Hr. assert (false = true); [|done].
        rewrite <- Hs. apply Hiff. eauto. }
      intros r1 r2 [[<- _]|[_ H1]]%lookup_insert_Some;
        intros [[<- _]|[_ H2]]%lookup_insert_Some; try done.
      * by destruct (Hnone r2).
      * by destruct (Hnone r1).
      * by destruct (Hnone r1).
  - destruct (viaSection h) eqn:Hh; [done|]. cbn [fst].
    by apply addInv_page_call.
  - cbn [fst ShowDetailPage.step].
    destruct (pending (page u) !! rid) as [k|] eqn:Hk; [|by destruct u, v].
    destruct (resume k v (settle rid (page u))) as [s'|] eqn:Hr.
    + destruct (resume_pending _ _ _ _ Hr) as [Hp Hn]. cbn [fst].
      apply (addInv_settle u rid k); try done.
      destruct k as [[]| | | | | | | |], v; try done.
    + cbn [fst].
      assert (match v with
              | ofComment _ =>
                  if isAdd (Some k)
                  then CommentsSection.handleSubmit_resolved (section u)
                  else section u
              | _ => section u
              end = section u) as ->; [|by destruct u].
      destruct k as [[]| | | | | | | |], v; try done.
  - cbn [fst ShowDetailPage.step].
    destruct (pending (page u) !! rid) as [k|] eqn:Hk; [|by destruct u].
    destruct (throw_pending k (settle rid (page u))) as [Hp Hn]. cbn [fst].
    apply (addInv_settle u rid k); try done. by destruct k.
Qed.

Lemma addInv_run (id : Z) (tr : list CommentsUi.Event) :
  addInv (fst (CommentsUi.run tr (CommentsUi.mount id))).
Proof.
  assert (addInv (fst (CommentsUi.mount id))) as H0.
  { split_and!; cbn.
    - intros rid k H.
      repeat (apply lookup_insert_Some in H as [[<- _]|[_ H]]; [lia|]). done.
    - split; [done|]. intros [rid H].
      repeat (apply lookup_insert_Some in H as [[_ H]|[_ H]]; [done|]). done.
    - intros r1 r2 H _.
      repeat (apply lookup_insert_Some in H as [[_ H]|[_ H]]; [done|]). done. }
  revert H0. generalize (CommentsUi.mount id).
  induction tr as [|e tr IH]; intros uc Huc; [done|].
  cbn [CommentsUi.run]. destruct (CommentsUi.step e (fst uc)) as [u1 c1] eqn:E.
  apply IH. cbn. replace u1 with (fst (CommentsUi.step e (fst uc)))
    by (by rewrite E).
  by apply addInv_step.
Qed.

(** The form of the show lets one creation be in flight at a time: in
    every state the page with its form can reach, the form is submitting
    exactly while a creation is awaited and no two are; while one is
    awaited a submission does nothing.  When the creation succeeds the
    comment is put in front of the list, the draft is emptied and the
    form is free again; when it fails the list is as before, the draft
    is kept as it is and the form is free again. *)
Theorem one_show_comment_submission_in_flight
    (id : Z) (tr : list CommentsUi.Event) (rid : nat) (comment : Comment) :
  let u := fst (CommentsUi.run tr (CommentsUi.mount id)) in
  pending (page u) !! rid = Some handleAddShowComment_k →
  (∀ tr0, addInv (fst (CommentsUi.run tr0 (CommentsUi.mount id))))
  ∧ CommentsSection.isSubmitting (section u) = true
  ∧ CommentsUi.step Submit u = (u, [])
  ∧ (let u2 := fst (CommentsUi.step (Resolved rid (ofComment comment)) u) in
     showComments (page u2) = comment :: showComments (page u)
     ∧ section u2 = CommentsSection.initial
     ∧ ∀ r, pending (page u2) !! r ≠ Some handleAddShowComment_k)
  ∧ (let u3 := fst (CommentsUi.step (Rejected rid) u) in
     showComments (page u3) = showComments (page u)
     ∧ section u3
       = {| CommentsSection.newComment :=
              CommentsSection.newComment (section u);
            CommentsSection.isSubmitting := false |}
     ∧ ∀ r, pending (page u3) !! r ≠ Some handleAddShowComment_k).
Proof.
  intros u Hk.
  pose proof (addInv_run id tr) as HI. fold u in HI.
  assert (CommentsSection.isSubmitting (section u) = true) as Hs.
  { destruct HI as (_ & Hiff & _). apply Hiff. eauto. }
  split_and!.
  - intros tr0. apply addInv_run.
  - done.
  - cbn [CommentsUi.step]. destruct (mounted u); [|done].
    unfold CommentsSection.handleSubmit. cbn [fst snd].
    rewrite Hs, orb_true_r. by destruct u.
  - pose proof (addInv_step (Resolved rid (ofComment comment)) u HI)
      as (_ & Hiff & _).
    revert Hiff. cbn [CommentsUi.step fst ShowDetailPage.step page section].
    rewrite Hk. cbn [resume isAdd fst]. intros Hiff. split_and!; try done.
    intros r Hr. assert (false = true); [|done]. apply Hiff. eauto.
  - pose proof (addInv_step (Rejected rid) u HI) as (_ & Hiff & _).
    revert Hiff. cbn [CommentsUi.step fst ShowDetailPage.step page section].
    rewrite Hk. cbn [throw isAdd fst]. intros Hiff. split_and!; try done.
    intros r Hr. assert (false = true); [|done]. apply Hiff. eauto.
Qed.

Lemma one_show_comment_submission_in_flight_witness :
  let u := fst (CommentsUi.run submitting (CommentsUi.mount 123)) in
  pending (page u) !! 3 = Some handleAddShowComment_k
  ∧ CommentsUi.step Submit u = (u, [])
  ∧ showComments
      (page (fst (CommentsUi.step (Resolved 3 (ofComment Sample.onPilot)) u)))
    = Sample.onPilot :: showComments (page u).
Proof.
  assert (H : pending (page (fst (CommentsUi.run submitting
                                    (CommentsUi.mount 123)))) !! 3
              = Some handleAddShowComment_k) by (vm_compute; reflexivity).
  split; [exact H|].
  pose proof (one_show_comment_submission_in_flight 123 submitting 3
                Sample.onPilot H) as (_ & _ & T1 & (T2 & _) & _).
  split; [exact T1|exact T2].
Defined.

End FormFacts.

(** ** The panel of the show after a failed first generation *)

Section PanelFacts.

Import ShowDetailPage PageInv Ui InsightInv PanelInv.

(** The panel remembers that a generation was started for as long as
    one is awaited. *)
Lemma started_step (e : Ui.Event) (u : Ui.State) :
  (isLoadingInsight (page u) = true → showPanel u = true) →
  isLoadingInsight (page (fst (Ui.step e u))) = true →
  showPanel (fst (Ui.step e u)) = true.
Proof.
  intros H. destruct e as [sc|h|rid v|rid]; cbn [Ui.step].
  - unfold clickGenerate. destruct (canGenerate sc u); [|done].
    destruct sc; [done|]. cbn. unfold handleGenerateEpisodeInsight.
    by destruct (selectedEpisode (page u)).
  - destruct (viaPanel h) eqn:Hh; [done|].
    cbn [withPage fst page showPanel].
    destruct (call_flag h (page u) ofShow Hh) as [Ef _]. cbn [flag] in Ef.
    by rewrite Ef.
  - cbn. destruct (pending (page u) !! rid) as [k|]; [|done].
    destruct (resume k v (settle rid (page u))) as [s'|] eqn:Hr; [|done].
    cbn. pose proof (resume_flag _ _ _ _ ofShow Hr) as Hf. cbn in Hf.
    rewrite Hf. by case_bool_decide.
  - cbn. destruct (pending (page u) !! rid) as [k|]; [|done]. cbn.
    pose proof (throw_flag k (settle rid (page u)) ofShow) as Hf. cbn in Hf.
    rewrite Hf. by case_bool_decide.
Qed.

Lemma started_run (id : Z) (tr : list Ui.Event) :
  let u := fst (Ui.run tr (Ui.mount id)) in
  isLoadingInsight (page u) = true → showPanel u = true.
Proof.
  cbn zeta. assert (isLoadingInsight (page (fst (Ui.mount id))) = true →
                    showPanel (fst (Ui.mount id)) = true) as H0 by done.
  revert H0. generalize (Ui.mount id).
  induction tr as [|e tr IH]; intros uc Huc; [done|].
  cbn [Ui.run]. destruct (Ui.step e (fst uc)) as [u1 c1] eqn:E.
  apply IH. cbn. replace u1 with (fst (Ui.step e (fst uc))) by (by rewrite E).
  by apply started_step.
Qed.

Lemma resume_showInsight (k : Cont) (v : Payload)
    (s s' : ShowDetailPage.State) :
  resume k v s = Some s' → k ≠ handleGenerateShowInsight_k →
  showInsight s' = showInsight s.
Proof.
  destruct k as [[]| | | | | | | |], v; cbn; intros H Hk; simplify_eq;
    try done.
  all: unfold all_resolved; cbn; repeat case_match; try done.
  all: unfold loadShowData_resolved; repeat case_match; done.
Qed.

Lemma throw_showInsight (k : Cont) (s : ShowDetailPage.State) :
  showInsight (throw k s) = showInsight s.
Proof. destruct k; cbn; try done. unfold all_rejected. by case_match. Qed.

Lemma call_showInsight (h : Handler) (s : ShowDetailPage.State) :
  viaPanel h = false →
  showInsight (fst (call h s)) = showInsight s
  ∧ Forall (λ c, forShowInsight c = false) (snd (call h s)).
Proof.
  intros Hh. destruct h; try done; cbn.
  all: try (split; [done|by repeat constructor]).
  - unfold handleToggleWatched. cbn. split; [done|].
    repeat constructor. by case_bool_decide.
  - unfold handleAddEpisodeComment.
    destruct (selectedEpisode s); cbn; (split; [done|by repeat constructor]).
Qed.

Lemma stuck_step (e : Ui.Event) (u : Ui.State) :
  stuck u →
  stuck (fst (Ui.step e u))
  ∧ Forall (λ c, forShowInsight c = false) (snd (Ui.step e u)).
Proof.
  intros (Hp & Hi & Hl & Hn). unfold stuck.
  destruct e as [sc|h|rid v|rid]; cbn [Ui.step].
  - unfold clickGenerate. destruct (canGenerate sc u) eqn:Hc;
      [|by split; [|constructor]].
    apply canGenerate_spec in Hc as (_ & _ & Hc). destruct sc.
    + cbn in Hc. rewrite Hp, Hi in Hc. by destruct Hc as [?|[? ?]].
    + cbn. unfold handleGenerateEpisodeInsight.
      destruct (selectedEpisode (page u)) as [ep|]; cbn;
        [|by split; [|constructor]].
      split; [|by repeat constructor]. split_and!; try done.
      intros r [[_ ?]|[_ H]]%lookup_insert_Some; [done|]. by apply (Hn r).
  - destruct (viaPanel h) eqn:Hh; [by split; [|constructor]|].
    destruct (call_showInsight h (page u) Hh) as [Es Hc].
    destruct (call_flag h (page u) ofShow Hh) as [Ef Hne]. cbn in Ef, Hne.
    split; [|exact Hc]. cbn. rewrite Es, Ef. split_and!; try done.
    pose proof (call_pending h (page u)) as Hq. cbn zeta in Hq.
    destruct (contOf h (page u)) as [k|].
    + destruct Hq as (-> & _). intros r [[_ ->]|[_ H]]%lookup_insert_Some;
        [congruence|]. by apply (Hn r).
    + destruct Hq as (-> & _). exact Hn.
  - cbn [ShowDetailPage.step].
    destruct (pending (page u) !! rid) as [k|] eqn:Hk;
      [|by split; [|constructor]].
    destruct (resume k v (settle rid (page u))) as [s'|] eqn:Hr;
      [|by split; [|constructor]].
    split; [|constructor]. cbn.
    assert (k ≠ handleGenerateShowInsight_k) as Hne.
    { intros ->. by apply (Hn rid). }
    rewrite (resume_showInsight _ _ _ _ Hr Hne).
    pose proof (resume_flag _ _ _ _ ofShow Hr) as Hf. cbn in Hf.
    rewrite Hf, bool_decide_false by done.
    destruct (resume_pending _ _ _ _ Hr) as [-> _]. cbn.
    split_and!; try done.
    intros r [_ H]%lookup_delete_Some. by apply (Hn r).
  - cbn [ShowDetailPage.step].
    destruct (pending (page u) !! rid) as [k|] eqn:Hk;
      [|by split; [|constructor]].
    split; [|constructor]. cbn.
    assert (k ≠ handleGenerateShowInsight_k) as Hne.
    { intros ->. by apply (Hn rid). }
    rewrite throw_showInsight.
    pose proof (throw_flag k (settle rid (page u)) ofShow) as Hf. cbn in Hf.
    rewrite Hf, bool_decide_false by done.
    destruct (throw_pending k (settle rid (page u))) as [-> _]. cbn.
    split_and!; try done.
    intros r [_ H]%lookup_delete_Some. by apply (Hn r).
Qed.

Lemma stuck_run (tr : list Ui.Event) (uc : Ui.State * Calls) :
  stuck (fst uc) → Forall (λ c, forShowInsight c = false) (snd uc) →
  stuck (fst (Ui.run tr uc))
  ∧ Forall (λ c, forShowInsight c = false) (snd (Ui.run tr uc)).
Proof.
  revert uc. induction tr as [|e tr IH]; intros uc Hu Hc; [done|].
  cbn [Ui.run]. destruct (Ui.step e (fst uc)) as [u1 c1] eqn:E.
  destruct (stuck_step e (fst uc) Hu) as [Hu1 Hc1]. rewrite E in Hu1, Hc1.
  apply IH; [done|]. cbn. by apply Forall_app.
Qed.

(** If the first generation of the show insight fails, the panel of the
    show is left without any button until the page is mounted anew:
    whatever happens afterwards, no request for the insight of the show
    is ever made again, no insight of the show is ever stored, a click on
    the panel does nothing, and the panel, where it is rendered, shows
    nothing under its header. *)
Theorem show_insight_stuck_after_first_failure
    (id : Z) (tr tr' : list Ui.Event) (rid : nat) :
  let u := fst (Ui.run tr (Ui.mount id)) in
  pending (page u) !! rid = Some handleGenerateShowInsight_k →
  showInsight (page u) = None →
  let r := Ui.run tr' (fst (Ui.step (Ui.Rejected rid) u), []) in
  Forall (λ c, forShowInsight c = false) (snd r)
  ∧ showInsight (page (fst r)) = None
  ∧ Ui.step (ClickGenerate ofShow) (fst r) = (fst r, [])
  ∧ match panel ofShow (fst r) with
    | Some content => content = AIInsightPanel.Empty
    | None => True
    end.
Proof.
  intros u Hk Hi r.
  assert (stuck (fst (Ui.step (Ui.Rejected rid) u))) as Hs.
  { destruct (genInv_run id tr) as [_ Hg]. destruct (Hg ofShow) as [Hiff Hu].
    fold u in Hiff, Hu. cbn in Hiff, Hu.
    pose proof (started_run id tr) as Hst. cbn zeta in Hst. fold u in Hst.
    cbn [Ui.step withPage fst ShowDetailPage.step page]. rewrite Hk.
    unfold stuck. cbn. split_and!; try done.
    - apply Hst, Hiff. eauto.
    - intros r0 [Hne H]%lookup_delete_Some. destruct Hne. eauto. }
  destruct (stuck_run tr' (fst (Ui.step (Ui.Rejected rid) u), []) Hs)
    as [(Hp & Hn & Hl & _) Hc]; [constructor|].
  fold r in Hp, Hn, Hl, Hc. split_and!; try done.
  - cbn [Ui.step]. unfold clickGenerate.
    destruct (canGenerate ofShow (fst r)) eqn:Hcan; [|done].
    apply canGenerate_spec in Hcan as (_ & _ & Hcan). cbn in Hcan.
    rewrite Hp, Hn in Hcan. by destruct Hcan as [?|[? ?]].
  - unfold panel. destruct (render (page (fst r))) as [| |v] eqn:Hv; try done.
    unfold render in Hv.
    destruct (isLoading (page (fst r))); [done|].
    destruct (showData (page (fst r))); [|done].
    destruct (isTruthy (error (page (fst r)))); [done|].
    injection Hv as <-. cbn. by rewrite Hp, Hn, Hl.
Qed.

Lemma show_insight_stuck_after_first_failure_witness :
  let u := fst (Ui.run Sample.generating (Ui.mount 123)) in
  let r := Ui.run [ClickGenerate ofShow]
             (fst (Ui.step (Ui.Rejected 3) u), []) in
  pending (page u) !! 3 = Some handleGenerateShowInsight_k
  ∧ showInsight (page u) = None
  ∧ Forall (λ c, forShowInsight c = false) (snd r)
  ∧ showInsight (page (fst r)) = None.
Proof.
  assert (H : pending (page (fst (Ui.run Sample.generating (Ui.mount 123))))
                !! 3 = Some handleGenerateShowInsight_k)
    by (vm_compute; reflexivity).
  assert (Hi : showInsight (page (fst (Ui.run Sample.generating
                                         (Ui.mount 123))))
               = None) by (vm_compute; reflexivity).
  split; [exact H|]. split; [exact Hi|].
  pose proof (show_insight_stuck_after_first_failure 123 Sample.generating
                [ClickGenerate ofShow] 3 H Hi) as (T1 & T2 & _).
  split; [exact T1|exact T2].
Defined.

End PanelFacts.

(** ** The comment form and the reopened modal *)

Section MoreFacts.

Import ShowDetailPage PageInv Ui InsightInv FormCalls.

Lemma call_showCommentOf (h : Handler) (s : ShowDetailPage.State) :
  CommentsUi.viaSection h = false →
  omap showCommentOf (snd (call h s)) = [].
Proof.
  destruct h; try done; cbn.
  - unfold handleToggleWatched. cbn. by case_bool_decide.
  - intros _. unfold handleAddEpisodeComment.
    by destruct (selectedEpisode s).
  - intros _. unfold handleGenerateEpisodeInsight.
    by destruct (selectedEpisode s).
Qed.

Lemma form_step_calls (e : CommentsUi.Event) (u : CommentsUi.State) :
  Forall (λ q, q ≠ [] ∧ trim q = q)
    (omap showCommentOf (snd (CommentsUi.step e u))).
Proof.
  destruct e as [value| |h|rid v|rid]; cbn [CommentsUi.step].
  - destruct (CommentsUi.mounted u); constructor.
  - destruct (CommentsUi.mounted u); [|constructor]. cbn [snd].
    unfold CommentsSection.handleSubmit. cbn [fst snd].
    destruct (truthy (trim (CommentsSection.newComment
                              (CommentsUi.section u)))) eqn:Hq;
      [|constructor].
    destruct (CommentsSection.isSubmitting (CommentsUi.section u));
      cbn; [constructor|].
    repeat constructor; [|apply trim_idem]. intros E. by rewrite E in Hq.
  - destruct (CommentsUi.viaSection h) eqn:Hh; [constructor|]. cbn [snd].
    rewrite call_showCommentOf by done. constructor.
  - constructor.
  - constructor.
Qed.

(** Whatever is typed and submitted, and whatever else happens on the
    page, every comment on the show that is sent to the server has a
    content that is not empty and that trimming leaves as it is: it is a
    trimmed draft. *)
Theorem show_comments_sent_are_trimmed
    (id : Z) (tr : list CommentsUi.Event) :
  Forall (λ q, q ≠ [] ∧ trim q = q)
    (omap showCommentOf (snd (CommentsUi.run tr (CommentsUi.mount id)))).
Proof.
  assert (Forall (λ q : jsstring, q ≠ [] ∧ trim q = q)
            (omap showCommentOf (snd (CommentsUi.mount id)))) as H0
    by constructor.
  revert H0. generalize (CommentsUi.mount id).
  induction tr as [|e tr IH]; intros uc Huc; [done|].
  cbn [CommentsUi.run].
  destruct (CommentsUi.step e (fst uc)) as [u1 c1] eqn:E.
  apply IH. cbn [snd]. rewrite omap_app. apply Forall_app. split; [done|].
  pose proof (form_step_calls e (fst uc)) as H. by rewrite E in H.
Qed.

(** Closing the modal and opening it again brings the panel of the
    episode back to its invitation, with no insight shown; its button can
    be clicked unless a generation asked for earlier is still awaited. *)
Theorem reopened_modal_offers_generation_again
    (u : Ui.State) (episode : Episode) (v : DetailView) :
  render (page u) = Detail v →
  let closed := fst (Ui.step (Page CloseEpisodeModal) u) in
  let u' := fst (Ui.step (Page (ViewEpisodeComments episode)) closed) in
  panel ofEpisode closed = None
  ∧ panel ofEpisode u'
    = Some (AIInsightPanel.Initial (isLoadingEpisodeInsight (page u)))
  ∧ canGenerate ofEpisode u' = negb (isLoadingEpisodeInsight (page u))
  ∧ episodeInsight (page u') = None.
Proof.
  intros Hv. unfold render in Hv.
  destruct (isLoading (page u)) eqn:Hl; [done|].
  destruct (showData (page u)) as [d|] eqn:Hd; [|done].
  destruct (isTruthy (error (page u))) eqn:He; [done|].
  cbn zeta. unfold canGenerate, panel, render. cbn. rewrite Hl, Hd, He.
  cbn. done.
Qed.

Lemma reopened_modal_offers_generation_again_witness :
  let u := fst (Ui.run Sample.generating (Ui.mount 123)) in
  render (page u) = Detail (detailView (page u) Sample.lostDetail)
  ∧ canGenerate ofEpisode
      (fst (Ui.step (Page (ViewEpisodeComments Sample.pilot))
              (fst (Ui.step (Page CloseEpisodeModal) u))))
    = negb (isLoadingEpisodeInsight (page u)).
Proof.
  assert (H : render (page (fst (Ui.run Sample.generating (Ui.mount 123))))
              = Detail (detailView
                          (page (fst (Ui.run Sample.generating (Ui.mount 123))))
                          Sample.lostDetail)) by (vm_compute; reflexivity).
  split; [exact H|].
  pose proof (reopened_modal_offers_generation_again _ Sample.pilot _ H)
    as (_ & _ & T & _).
  exact T.
Defined.

End MoreFacts.

(** ** The detail page: the three loads and the detail view *)

Section LoadOrder.

Import ShowDetailPage PageInv Progress.

(** A value held by [Promise.all] was there before the step, or the step
    is the answer to the load of that value. *)
Lemma step_loads_origin (e : Event) (s : State) :
  let s' := fst (step e s) in
  (∀ d, details (loads s') = Some d →
     details (loads s) = Some d
     ∨ ∃ rid, pending s !! rid = Some (loadShowData_k detailsSlot)
              ∧ e = Resolved rid (ofShowDetail d))
  ∧ (∀ w, watched (loads s') = Some w →
       watched (loads s) = Some w
       ∨ ∃ rid, pending s !! rid = Some (loadShowData_k watchedSlot)
                ∧ e = Resolved rid (ofWatchedEpisodes w))
  ∧ (∀ c, comments (loads s') = Some c →
       comments (loads s) = Some c
       ∨ ∃ rid, pending s !! rid = Some (loadShowData_k commentsSlot)
                ∧ e = Resolved rid (ofComments c)).
Proof.
  destruct e as [h|rid v|rid]; cbn [step].
  - pose proof (call_keeps_load h s) as (E & _). cbn zeta in E. rewrite E.
    split_and!; intros ? H; left; exact H.
  - destruct (pending s !! rid) as [k|] eqn:Hk;
      [|split_and!; intros ? H; left; exact H].
    destruct k as [[]| | | | | | | |], v; cbn [resume fst];
      try (split_and!; intros ? H; left; exact H).
    all: match goal with
         | |- context [all_resolved ?p ?s0] =>
             destruct (all_resolved_fields p s0) as (-> & _)
         end.
    all: cbn [store details watched comments settle loads].
    all: split_and!; intros x H; try (left; exact H).
    all: right; exists rid; split; [exact Hk|congruence].
  - destruct (pending s !! rid) as [k|] eqn:Hk;
      [|split_and!; intros ? H; left; exact H].
    destruct k; cbn [throw fst];
      try (split_and!; intros ? H; left; exact H).
    unfold all_rejected. cbn [settle loads].
    destruct (rejected (loads s));
      split_and!; intros ? H; left; exact H.
Qed.

(** A value held by [Promise.all] at the end of a run was there at its
    start, or the run has the answer to a load that was awaited at its
    start. *)
Lemma run_loads_origin (tr : list Event) (sc : State * Calls) :
  let s' := fst (run tr sc) in
  (∀ d, details (loads s') = Some d →
     details (loads (fst sc)) = Some d
     ∨ ∃ rid, pending (fst sc) !! rid = Some (loadShowData_k detailsSlot)
              ∧ Resolved rid (ofShowDetail d) ∈ tr)
  ∧ (∀ w, watched (loads s') = Some w →
       watched (loads (fst sc)) = Some w
       ∨ ∃ rid, pending (fst sc) !! rid = Some (loadShowData_k watchedSlot)
                ∧ Resolved rid (ofWatchedEpisodes w) ∈ tr)
  ∧ (∀ c, comments (loads s') = Some c →
       comments (loads (fst sc)) = Some c
       ∨ ∃ rid, pending (fst sc) !! rid = Some (loadShowData_k commentsSlot)
                ∧ Resolved rid (ofComments c) ∈ tr).
Proof.
  revert sc. induction tr as [|e tr IH]; intros sc.
  { cbn. split_and!; intros ? H; left; exact H. }
  cbn [run]. destruct (step e (fst sc)) as [s1 c1] eqn:E.
  specialize (IH (s1, snd sc ++ c1)). cbn zeta in IH. cbn [fst] in IH.
  destruct IH as (ID & IW & IC).
  pose proof (step_loads_origin e (fst sc)) as (SD & SW & SC).
  rewrite E in SD, SW, SC. cbn [fst] in SD, SW, SC.
  assert (Hold : ∀ rid slot, pending s1 !! rid = Some (loadShowData_k slot) →
                 pending (fst sc) !! rid = Some (loadShowData_k slot)).
  { intros rid slot H. apply (step_no_new_load e). by rewrite E. }
  cbn zeta. split_and!.
  - intros d H. destruct (ID d H) as [H1|(rid & Hk & Hin)].
    + destruct (SD d H1) as [?|(rid & Hk & ->)]; [by left|].
      right. exists rid. split; [done|]. apply elem_of_cons. by left.
    + right. exists rid. split; [by apply Hold|].
      apply elem_of_cons. by right.
  - intros w H. destruct (IW w H) as [H1|(rid & Hk & Hin)].
    + destruct (SW w H1) as [?|(rid & Hk & ->)]; [by left|].
      right. exists rid. split; [done|]. apply elem_of_cons. by left.
    + right. exists rid. split; [by apply Hold|].
      apply elem_of_cons. by right.
  - intros c H. destruct (IC c H) as [H1|(rid & Hk & Hin)].
    + destruct (SC c H1) as [?|(rid & Hk & ->)]; [by left|].
      right. exists rid. split; [done|]. apply elem_of_cons. by left.
    + right. exists rid. split; [by apply Hold|].
      apply elem_of_cons. by right.
Qed.

(** The three promises of the load are the promises 0, 1 and 2. *)
Lemma mount_load_promises (id : Z) (rid : nat) (slot : Slot) :
  pending (fst (mount id)) !! rid = Some (loadShowData_k slot) →
  (slot = detailsSlot ∧ rid = 0) ∨ (slot = watchedSlot ∧ rid = 1)
  ∨ (slot = commentsSlot ∧ rid = 2).
Proof.
  cbn. intros H.
  repeat (apply lookup_insert_Some in H as [[<- H]|[_ H]];
          [simplify_eq; tauto|]).
  done.
Qed.

(** While a load is awaited the page shows the spinner, or the error of
    the load if another load has failed. *)
Lemma awaited_load_render (id : Z) (tr : list Event) (rid : nat)
    (slot : Slot) :
  let s := fst (run tr (mount id)) in
  pending s !! rid = Some (loadShowData_k slot) →
  render s = Spinner ∨ render s = ErrorView loadError.
Proof.
  intros s Hk.
  destruct (loadInv_run id tr) as (Hf & _ & Hp & _). fold s in Hf, Hp.
  assert (spinnerInv s) as [H1 _].
  { apply run_invariant; [apply spinnerInv_step|]. by split. }
  destruct (isLoading s) eqn:Hl.
  { left. unfold render. by rewrite Hl. }
  right. apply loadFailed_render, Hf.
  destruct (H1 eq_refl) as [?|Ha]; [done|].
  apply Hp in Hk. unfold allStored in Ha.
  destruct slot; rewrite Hk in Ha; cbn in Ha;
    rewrite ?andb_false_r in Ha; done.
Qed.

(** C6: on mounting, the page makes the three loads in one go and shows
    the spinner.  As long as one of the loads is awaited it shows the
    spinner, or the error of the load if another load has failed, and
    not the detail view; after none, one or two of the three answers, in
    whatever order they come, it shows the spinner.  When it shows the
    detail view, the three answers are among the events that have
    happened, no load is awaited any more, and the view is the one of
    the show that was answered; and it does show the detail view once
    the three answers are in, in whatever order.  If any load that is
    still awaited fails, the page shows the one error message of the
    load, and keeps showing it whatever happens afterwards. *)
Theorem C6_detail_after_all_three_or_error
    (id : Z) (tr tr' : list Event) (rid : nat) (slot : Slot) :
  let s := fst (run tr (mount id)) in
  pending s !! rid = Some (loadShowData_k slot) →
  snd (mount id) = [(0, getShowDetails id); (1, getWatchedEpisodes id);
                    (2, getShowComments id)]
  ∧ render (fst (mount id)) = Spinner
  (* a load is awaited: no detail view *)
  ∧ (∀ tr0 rid0 slot0,
       let s0 := fst (run tr0 (mount id)) in
       pending s0 !! rid0 = Some (loadShowData_k slot0) →
       render s0 = Spinner ∨ render s0 = ErrorView loadError)
  (* fewer than three answers: the spinner *)
  ∧ (∀ d w c tr0 n,
       tr0 ∈ permutations (answers d w c) → n < 3 →
       let s0 := fst (run (take n tr0) (mount id)) in
       render s0 = Spinner ∧ showData s0 = None)
  (* the detail view: the three answers have come *)
  ∧ (∀ tr0 v,
       let s0 := fst (run tr0 (mount id)) in
       render s0 = Detail v →
       ∃ d w c,
         answers d w c ⊆ tr0
         ∧ (∀ rid0 slot0, pending s0 !! rid0 ≠ Some (loadShowData_k slot0))
         ∧ loads s0 = {| details := Some d; watched := Some w;
                         comments := Some c; rejected := false |}
         ∧ v = detailView s0 d)
  ∧ (∀ d w c tr0,
       tr0 ∈ permutations (answers d w c) →
       render (fst (run tr0 (mount id)))
       = Detail (detailView (loadedState id d w c) d))
  ∧ render (fst (step (Rejected rid) s)) = ErrorView loadError
  ∧ render (fst (run tr' (step (Rejected rid) s))) = ErrorView loadError.
Proof.
  intros s Hk. split_and!; try done.
  - intros tr0 rid0 slot0. apply awaited_load_render.
  - intros d w c tr0 n Htr Hn.
    cbn in Htr. rewrite !elem_of_cons, elem_of_nil in Htr.
    destruct n as [|[|[|n]]]; [..|lia].
    all: destruct Htr as [->|[->|[->|[->|[->|[->|[]]]]]]].
    all: vm_compute; done.
  - intros tr0 v s0 Hv.
    pose proof (loadInv_run id tr0) as (_ & Hd & _). fold s0 in Hd.
    assert (∃ d, showData s0 = Some d ∧ v = detailView s0 d)
      as (d & Hs & ->).
    { revert Hv. unfold render. destruct (isLoading s0); [done|].
      destruct (showData s0) as [d|]; [|done].
      destruct (isTruthy (error s0)); [done|].
      intros [= <-]. eauto. }
    destruct (Hd d Hs) as (w & c & E). exists d, w, c.
    split_and!; [|
      intros rid0 slot0 H0;
      destruct (awaited_load_render id tr0 rid0 slot0 H0) as [H|H];
      fold s0 in H; rewrite Hv in H; done|done..].
    pose proof (run_loads_origin tr0 (mount id)) as (OD & OW & OC).
    fold s0 in OD, OW, OC. rewrite E in OD, OW, OC.
    intros e He. unfold answers in He.
    rewrite !elem_of_cons, elem_of_nil in He.
    destruct He as [->|[->|[->|[]]]].
    + destruct (OD d eq_refl) as [?|(r & Hr & Hin)]; [done|].
      apply mount_load_promises in Hr. by destruct Hr as [[_ ->]|[[? _]|[? _]]].
    + destruct (OW w eq_refl) as [?|(r & Hr & Hin)]; [done|].
      apply mount_load_promises in Hr. by destruct Hr as [[? _]|[[_ ->]|[? _]]].
    + destruct (OC c eq_refl) as [?|(r & Hr & Hin)]; [done|].
      apply mount_load_promises in Hr. by destruct Hr as [[? _]|[[? _]|[_ ->]]].
  - intros d w c tr0 Htr. by rewrite (mount_loaded id d w c tr0 Htr).
  - apply loadFailed_render. rewrite (step_Rejected _ _ _ Hk). cbn [throw fst].
    pose proof (loadInv_run id tr) as (Hf & _). fold s in Hf.
    destruct (rejected (loads s)) eqn:Hr.
    + unfold all_rejected. cbn. rewrite Hr.
      destruct (Hf eq_refl) as (? & ? & ?). done.
    + by apply all_rejected_fields.
  - apply loadFailed_render, run_invariant; [apply loadFailed_step|].
    rewrite (step_Rejected _ _ _ Hk). cbn [throw fst].
    pose proof (loadInv_run id tr) as (Hf & _). fold s in Hf.
    destruct (rejected (loads s)) eqn:Hr.
    + unfold all_rejected. cbn. rewrite Hr.
      destruct (Hf eq_refl) as (? & ? & ?). done.
    + by apply all_rejected_fields.
Qed.

Lemma C6_detail_after_all_three_or_error_witness :
  let tr := [Resolved 0 (ofShowDetail Sample.lostDetail)] in
  let tr' := [Resolved 2 (ofComments {| cr_comments := [Sample.onShow] |})] in
  let s := fst (run tr (mount 123)) in
  pending s !! 1 = Some (loadShowData_k watchedSlot)
  ∧ (render s = Spinner ∨ render s = ErrorView loadError)
  ∧ render (fst (run tr' (step (Rejected 1) s))) = ErrorView loadError.
Proof.
  assert (H : pending (fst (run [Resolved 0 (ofShowDetail Sample.lostDetail)]
                              (mount 123))) !! 1
              = Some (loadShowData_k watchedSlot)) by (vm_compute; reflexivity).
  split; [exact H|].
  pose proof (C6_detail_after_all_three_or_error 123
                [Resolved 0 (ofShowDetail Sample.lostDetail)]
                [Resolved 2 (ofComments {| cr_comments := [Sample.onShow] |})]
                1 watchedSlot H) as (_ & _ & T3 & _ & _ & _ & _ & T8).
  split; [exact (T3 _ 1 watchedSlot H)|exact T8].
Defined.

End LoadOrder.
